(** * kbbi-js: the dictionary parser and the scrape orchestrator

    A shallow embedding of [lib/parser.js] (class [KBBIParser]), of
    [KBBIScraper.scrapeWord] in [scrape.js], of [KBBI.lookup] in [kbbi.js]
    and of the [BrowserManager] methods they call, followed by theorems
    about them.

    - JavaScript strings are lists of UTF-16 code units ([list N]).
    - A parsed page (what [cheerio.load] returns) is a forest of [Node]s;
      an element is referred to by its path from the root, so that
      [parent], sibling and ancestor navigation are available.
    - JavaScript objects that are used as records with optional keys
      (an entry) are finite maps from key names to values.
    - Playwright and the cookie store are the outside world: a record of
      state-passing operations the orchestrator is parameterised by. *)

From Stdlib Require Import NArith String Ascii.
From stdpp Require Import gmap strings list fin_maps.

Set Warnings "-register-all".
Set Default Proof Using "Type".

Local Open Scope N_scope.

(** ** JavaScript strings *)

Module JsString.

Definition js (s : string) : list N :=
  List.map N_of_ascii (list_ascii_of_string s).

(** [\s] of a JavaScript regular expression, which is also the set that
    [String.prototype.trim] removes. *)
Definition isSpace (c : N) : bool :=
  ((9 <=? c) && (c <=? 13)) || (c =? 32) || (c =? 160) || (c =? 0x1680)
  || ((0x2000 <=? c) && (c <=? 0x200a)) || (c =? 0x2028) || (c =? 0x2029)
  || (c =? 0x202f) || (c =? 0x205f) || (c =? 0x3000) || (c =? 0xfeff).

(** The characters [.] does not match. *)
Definition isLineTerminator (c : N) : bool :=
  (c =? 10) || (c =? 13) || (c =? 0x2028) || (c =? 0x2029).

Definition isDigit (c : N) : bool := (48 <=? c) && (c <=? 57).

(** [\w] without the unicode flag. *)
Definition isWordChar (c : N) : bool :=
  isDigit c || ((65 <=? c) && (c <=? 90)) || ((97 <=? c) && (c <=? 122))
  || (c =? 95).

Definition isEmpty {A : Type} (s : list A) : bool :=
  match s with [] => true | _ => false end.

Definition headIs (p : N -> bool) (s : list N) : bool :=
  match s with c :: _ => p c | [] => false end.

Fixpoint takeWhile (p : N -> bool) (s : list N) : list N :=
  match s with
  | c :: s' => if p c then c :: takeWhile p s' else []
  | [] => []
  end.

Fixpoint dropWhile (p : N -> bool) (s : list N) : list N :=
  match s with
  | c :: s' => if p c then dropWhile p s' else s
  | [] => []
  end.

Definition trimStart (s : list N) : list N := dropWhile isSpace s.
Definition trimEnd (s : list N) : list N := rev (trimStart (rev s)).
Definition trim (s : list N) : list N := trimEnd (trimStart s).

Fixpoint startsWith (p s : list N) : bool :=
  match p, s with
  | [], _ => true
  | a :: p', b :: s' => (a =? b) && startsWith p' s'
  | _ :: _, [] => false
  end.

Definition eqb (a b : list N) : bool := bool_decide (a = b).

(** [s.includes(p)] *)
Fixpoint includes (p s : list N) : bool :=
  startsWith p s ||
  match s with
  | [] => false
  | _ :: s' => includes p s'
  end.

(** [s.indexOf(c)] for a one-character pattern; [None] is [-1]. *)
Fixpoint indexOfChar (c : N) (s : list N) : option nat :=
  match s with
  | [] => None
  | x :: s' => if x =? c then Some 0%nat else S <$> indexOfChar c s'
  end.

(** [s.replace(p, r)] with a string pattern: the first occurrence only. *)
Fixpoint replaceFirst (p r s : list N) : list N :=
  if startsWith p s then r ++ drop (length p) s
  else match s with
       | [] => []
       | c :: s' => c :: replaceFirst p r s'
       end.

(** [s.split(c)] for a one-character separator. *)
Fixpoint splitOn (c : N) (s : list N) : list (list N) :=
  match s with
  | [] => [[]]
  | x :: s' =>
      if x =? c then [] :: splitOn c s'
      else match splitOn c s' with
           | t :: ts => (x :: t) :: ts
           | [] => [[x]]
           end
  end.

(** [s.split(/\s+/)]; [inSep] says that the previous character belonged to
    a separator run. *)
Fixpoint splitWsAux (inSep : bool) (s : list N) : list (list N) :=
  match s with
  | [] => [[]]
  | x :: s' =>
      if isSpace x then
        if inSep then splitWsAux true s' else [] :: splitWsAux true s'
      else match splitWsAux false s' with
           | t :: ts => (x :: t) :: ts
           | [] => [[x]]
           end
  end.

Definition splitWs (s : list N) : list (list N) := splitWsAux false s.

(** [s.replace(/\s+/g, ' ')] *)
Fixpoint collapseWsAux (inRun : bool) (s : list N) : list N :=
  match s with
  | [] => []
  | x :: s' =>
      if isSpace x then
        if inRun then collapseWsAux true s' else 32 :: collapseWsAux true s'
      else x :: collapseWsAux false s'
  end.

Definition collapseWs (s : list N) : list N := collapseWsAux false s.

Definition isSemiOrColon (c : N) : bool := (c =? 59) || (c =? 58).

(** [s.replace(/^\s*:\s*/, '')] *)
Definition stripLeadingColon (s : list N) : list N :=
  match trimStart s with
  | c :: t => if c =? 58 then trimStart t else s
  | [] => s
  end.

(** Does [\s*[;:]\s*$] match at the start of [s]? *)
Definition atTrailingSep (s : list N) : bool :=
  match trimStart s with
  | c :: t => isSemiOrColon c && isEmpty (trimStart t)
  | [] => false
  end.

(** [s.replace(/\s*[;:]\s*$/, '')]: the leftmost position where the
    pattern matches is where the string is cut. *)
Fixpoint stripTrailingSep (s : list N) : list N :=
  if atTrailingSep s then []
  else match s with
       | [] => []
       | c :: s' => c :: stripTrailingSep s'
       end.

(** [s.replace(/^[-–—•\s]+/, '')] *)
Definition isDashOrSpace (c : N) : bool :=
  (c =? 45) || (c =? 0x2013) || (c =? 0x2014) || (c =? 0x2022) || isSpace c.

Definition stripLeadingDashes (s : list N) : list N :=
  dropWhile isDashOrSpace s.

(** [s.replace(/^\s*[;:]\s*|\s*[;:]\s*$/, '')], no [g] flag: one match is
    replaced, the leading one when there is one. *)
Definition stripOneSep (s : list N) : list N :=
  match trimStart s with
  | c :: t => if isSemiOrColon c then trimStart t else stripTrailingSep s
  | [] => stripTrailingSep s
  end.

(** [/p(\d+)/]: the digits after the leftmost occurrence of [p] that is
    followed by a digit. *)
Fixpoint digitsAfter (p s : list N) : option (list N) :=
  let d := takeWhile isDigit (drop (length p) s) in
  if startsWith p s && negb (isEmpty d) then Some d
  else match s with
       | [] => None
       | _ :: s' => digitsAfter p s'
       end.

(** The integer a run of decimal digits denotes. *)
Definition digitsValue (d : list N) : N :=
  fold_left (fun acc c => 10 * acc + (c - 48)) d 0.

(** The Number nearest to a non-negative integer: the integer itself
    below 2^53; above, its 53 leading bits rounded to nearest, ties to
    even; [Infinity] from 2^1024 on. [Infinity] is written [2^1024], which
    no finite Number equals and every finite Number lies below. *)
Definition infinity : N := 2 ^ 1024.

Definition toNumber (n : N) : N :=
  if n <? 2 ^ 53 then n
  else
    let e := N.log2 n - 52 in
    let q := N.shiftr n e in
    let r := n - N.shiftl q e in
    let half := N.shiftl 1 (e - 1) in
    let q' := if (half <? r) || ((r =? half) && N.odd q) then q + 1 else q in
    let m := N.shiftl q' e in
    if infinity <=? m then infinity else m.

(** [parseInt] of a run of decimal digits: a Number. *)
Definition parseInt (d : list N) : nat := N.to_nat (toNumber (digitsValue d)).

(** No lone surrogate: every high surrogate is followed by a low one and
    every low one follows a high one. [encodeURIComponent] throws a
    [URIError] on any other string. *)
Definition isHighSurrogate (c : N) : bool := (0xD800 <=? c) && (c <=? 0xDBFF).
Definition isLowSurrogate (c : N) : bool := (0xDC00 <=? c) && (c <=? 0xDFFF).

Fixpoint isWellFormed (s : list N) : bool :=
  match s with
  | [] => true
  | c :: s' =>
      if isHighSurrogate c then
        match s' with
        | d :: s'' => isLowSurrogate d && isWellFormed s''
        | [] => false
        end
      else negb (isLowSurrogate c) && isWellFormed s'
  end.

Fixpoint uintDigits (u : Decimal.uint) : list N :=
  match u with
  | Decimal.Nil => []
  | Decimal.D0 u' => 48 :: uintDigits u'
  | Decimal.D1 u' => 49 :: uintDigits u'
  | Decimal.D2 u' => 50 :: uintDigits u'
  | Decimal.D3 u' => 51 :: uintDigits u'
  | Decimal.D4 u' => 52 :: uintDigits u'
  | Decimal.D5 u' => 53 :: uintDigits u'
  | Decimal.D6 u' => 54 :: uintDigits u'
  | Decimal.D7 u' => 55 :: uintDigits u'
  | Decimal.D8 u' => 56 :: uintDigits u'
  | Decimal.D9 u' => 57 :: uintDigits u'
  end.

(** [n.toString()] of a non-negative integer. *)
Definition toString (n : nat) : list N := uintDigits (Nat.to_uint n).

(** *** The regular expressions of the parser, as string functions *)

(** [/\s*¹|²|³|⁴|...|⁹|⁰/g] replaced by the
    empty string: the alternation binds looser than the sequence, so
    [\s*] belongs to the first alternative only. *)
Definition isSupNotOne (c : N) : bool :=
  (c =? 0xB2) || (c =? 0xB3) || ((0x2074 <=? c) && (c <=? 0x2079))
  || (c =? 0x2070).

Fixpoint stripSuperscripts (s : list N) : list N :=
  match s with
  | [] => []
  | c :: s' =>
      if isSupNotOne c || (c =? 0xB9) then stripSuperscripts s'
      else if isSpace c && headIs (N.eqb 0xB9) (trimStart s')
           then stripSuperscripts s'
           else c :: stripSuperscripts s'
  end.

(** The [superscripts] table of [toSuperscript]. *)
Definition superscriptOf (c : N) : N :=
  if c =? 48 then 0x2070 else if c =? 49 then 0xB9
  else if c =? 50 then 0xB2 else if c =? 51 then 0xB3
  else if isDigit c then 0x2070 + (c - 48) else c.

Definition toSuperscript (number : list N) : list N :=
  List.map superscriptOf number.

(** [s.replace(/(\w+)\d+([¹²³⁴-⁾]+)/, '$1$2')]:
    the leftmost word run of two or more characters that ends in a digit
    and is followed by a superscript loses that digit. *)
Definition isSupRange (c : N) : bool :=
  (c =? 0xB9) || (c =? 0xB2) || (c =? 0xB3)
  || ((0x2074 <=? c) && (c <=? 0x207E)).

Fixpoint fixStrayDigit (s : list N) : list N :=
  match s with
  | [] => []
  | c :: s' =>
      let run := takeWhile isWordChar s in
      let rest := drop (length run) s in
      if (2 <=? length run)%nat && headIs isDigit (rev run)
         && headIs isSupRange rest
      then removelast run ++ rest
      else c :: fixStrayDigit s'
  end.

(** Does [\s*\(Eid:\s*(\d+)\)] match at the start of [s]? *)
Definition atEidTail (s : list N) : bool :=
  let s1 := trimStart s in
  startsWith (js "(Eid:") s1 &&
  let s2 := trimStart (drop 5 s1) in
  let d := takeWhile isDigit s2 in
  negb (isEmpty d) && headIs (N.eqb 41) (drop (length d) s2).

(** The shortest non-empty prefix of [s] without line terminators after
    which the tail pattern matches: group 1 of a match starting at the
    head of [s]. *)
Fixpoint lazyUntilEid (s : list N) : option (list N) :=
  match s with
  | [] => None
  | c :: s' =>
      if isLineTerminator c then None
      else if atEidTail s' then Some [c]
      else cons c <$> lazyUntilEid s'
  end.

(** Group 1 of [value.match(/(.+?)\s*\(Eid:\s*(\d+)\)/)]. *)
Fixpoint matchIndukKata (s : list N) : option (list N) :=
  match s with
  | [] => None
  | _ :: s' =>
      match lazyUntilEid s with
      | Some g => Some g
      | None => matchIndukKata s'
      end
  end.

(** Groups 1 and 2 of [s.match(/^(\w+)\s+\((.*?)\)$/)]. *)
Definition matchKelas (s : list N) : option (list N * list N) :=
  let w := takeWhile isWordChar s in
  let r := drop (length w) s in
  let r' := trimStart r in
  if isEmpty w || (length r' =? length r)%nat then None
  else match r' with
       | c :: x =>
           if c =? 40 then
             match rev x with
             | d :: xr =>
                 if (d =? 41) && forallb (fun e => negb (isLineTerminator e)) xr
                 then Some (w, rev xr) else None
             | [] => None
             end
           else None
       | [] => None
       end.

(** Does [Contoh #(\d+)-(\d+)] match at the start of [s]? The two numbers
    are returned through [parseInt]. *)
Definition atContohHeader (s : list N) : option (nat * nat) :=
  if startsWith (js "Contoh #") s then
    let s1 := drop 8 s in
    let d1 := takeWhile isDigit s1 in
    let s2 := drop (length d1) s1 in
    match s2 with
    | c :: s3 =>
        let d2 := takeWhile isDigit s3 in
        if negb (isEmpty d1) && (c =? 45) && negb (isEmpty d2)
        then Some (parseInt d1, parseInt d2) else None
    | [] => None
    end
  else None.

(** [s.match(/Contoh #(\d+)-(\d+)/)] *)
Fixpoint matchContohHeader (s : list N) : option (nat * nat) :=
  match atContohHeader s with
  | Some r => Some r
  | None => match s with
            | [] => None
            | _ :: s' => matchContohHeader s'
            end
  end.

(** Is there a [c] ahead that [.*?] can reach (no line terminator first)? *)
Fixpoint closesOnLine (c : N) (s : list N) : bool :=
  match s with
  | [] => false
  | x :: s' =>
      if x =? c then true
      else if isLineTerminator x then false
      else closesOnLine c s'
  end.

(** [s.replace(/\[(.*?)\]/g, '$1')]; [inside] says that an opening bracket
    was dropped and its closing bracket is still ahead. *)
Fixpoint stripBracketsAux (inside : bool) (s : list N) : list N :=
  match s with
  | [] => []
  | c :: s' =>
      if inside then
        if c =? 93 then stripBracketsAux false s'
        else c :: stripBracketsAux true s'
      else if (c =? 91) && closesOnLine 93 s' then stripBracketsAux true s'
      else c :: stripBracketsAux false s'
  end.

Definition stripBrackets (s : list N) : list N := stripBracketsAux false s.

(** [s.replace(/<[^>]*>/g, '')] *)
Fixpoint stripTagsAux (inside : bool) (s : list N) : list N :=
  match s with
  | [] => []
  | c :: s' =>
      if inside then
        if c =? 62 then stripTagsAux false s' else stripTagsAux true s'
      else if (c =? 60) && includes [62] s' then stripTagsAux true s'
      else c :: stripTagsAux false s'
  end.

Definition stripTags (s : list N) : list N := stripTagsAux false s.

(** The maximal [\w] runs of a string, in order; [cur] is the run being
    read, reversed. *)
Fixpoint wordRunsAux (cur : list N) (s : list N) : list (list N) :=
  match s with
  | [] => if isEmpty cur then [] else [rev cur]
  | c :: s' =>
      if isWordChar c then wordRunsAux (c :: cur) s'
      else (if isEmpty cur then [] else [rev cur]) ++ wordRunsAux [] s'
  end.

Definition wordRuns (s : list N) : list (list N) := wordRunsAux [] s.

End JsString.
Export JsString.

(** ** The parsed document *)

Module Dom.

Inductive Node : Type :=
| Text (data : list N)
| Comment (data : list N)
| Elem (tag : list N) (attrs : list (list N * list N)) (children : list Node).

(** A document is the list of the top-level nodes; an element is named by
    the indices leading to it. Tag and attribute names are in lower case,
    as the HTML parser leaves them. *)
Definition Doc : Type := list Node.
Definition Path : Type := list nat.

Definition isElem (n : Node) : bool :=
  match n with Elem _ _ _ => true | _ => false end.

Definition childNodes (n : Node) : list Node :=
  match n with Elem _ _ cs => cs | _ => [] end.

Fixpoint getNodeIn (ns : list Node) (p : Path) : option Node :=
  match p with
  | [] => None
  | [i] => ns !! i
  | i :: p' =>
      match ns !! i with
      | Some n => getNodeIn (childNodes n) p'
      | None => None
      end
  end.

(** The node list a path's last index points into: the children of the
    parent, or the top level. *)
Definition siblingsOf (doc : Doc) (p : Path) : list Node :=
  match removelast p with
  | [] => doc
  | q => match getNodeIn doc q with
         | Some n => childNodes n
         | None => []
         end
  end.

(** [.text()] of one node: the text nodes below it, concatenated. *)
Fixpoint textOf (n : Node) : list N :=
  match n with
  | Text s => s
  | Comment _ => []
  | Elem _ _ cs => List.concat (List.map textOf cs)
  end.

(** The text the selector engine sees ([getText], which [:contains]
    tests): as [textOf], but a [br] element counts as a line feed. *)
Fixpoint getText (n : Node) : list N :=
  match n with
  | Text s => s
  | Comment _ => []
  | Elem t _ cs =>
      if eqb t (js "br") then [10] else List.concat (List.map getText cs)
  end.

(** The paths of all elements of a forest, in document order, each
    prefixed by [pre]. *)
Fixpoint elemsOfNode (pre : Path) (n : Node) : list Path :=
  match n with
  | Elem _ _ cs =>
      pre ::
      (fix go (i : nat) (l : list Node) : list Path :=
         match l with
         | [] => []
         | c :: l' => elemsOfNode (pre ++ [i]) c ++ go (S i) l'
         end) 0%nat cs
  | _ => []
  end.

Fixpoint elemsOfList (pre : Path) (i : nat) (l : list Node) : list Path :=
  match l with
  | [] => []
  | c :: l' => elemsOfNode (pre ++ [i]) c ++ elemsOfList pre (S i) l'
  end.

Definition allElems (doc : Doc) : list Path := elemsOfList [] 0 doc.

Definition attrOf (name : list N) (n : Node) : option (list N) :=
  match n with
  | Elem _ attrs _ => snd <$> List.find (fun a => eqb (fst a) name) attrs
  | _ => None
  end.

Definition tagOf (n : Node) : list N :=
  match n with Elem t _ _ => t | _ => [] end.

End Dom.
Export Dom.

(** ** Selectors

    The fragment of CSS the parser uses: compound selectors made of tag,
    class, attribute and [:contains] tests, chained by the descendant
    combinator, and comma lists of those. *)

Module Css.

Inductive Simple : Type :=
| Tag (t : list N)
| Class (c : list N)
| HasAttr (a : list N)
| AttrEqNoCase (a v : list N)
| AttrSub (a v : list N)
| Contains (t : list N).

Definition Compound : Type := list Simple.
(** A descendant chain, outermost compound first. *)
Definition Complex : Type := list Compound.
Definition Selector : Type := list Complex.

(** css-select compares the values of the attributes that HTML declares
    case-insensitive, [color] among them, after [toLowerCase]; for the two
    values the parser asks for, [red] and [grey], only the capital ASCII
    letters lower-case into them. *)
Definition toLowerAscii (c : N) : N :=
  if (65 <=? c) && (c <=? 90) then c + 32 else c.

Definition matchSimple (s : Simple) (n : Node) : bool :=
  match s with
  | Tag t => eqb (tagOf n) t
  | Class c =>
      match attrOf (js "class") n with
      | Some v => existsb (eqb c) (splitWs v)
      | None => false
      end
  | HasAttr a => match attrOf a n with Some _ => true | None => false end
  | AttrEqNoCase a v =>
      match attrOf a n with
      | Some w => eqb (List.map toLowerAscii w) v
      | None => false
      end
  | AttrSub a v =>
      match attrOf a n with Some w => includes v w | None => false end
  | Contains t => includes t (getText n)
  end.

Definition matchCompound (c : Compound) (n : Node) : bool :=
  isElem n && forallb (fun s => matchSimple s n) c.

(** All non-empty prefixes of a path, shortest first; the last one is the
    path itself. *)
Fixpoint prefixes (p : Path) : list Path :=
  match p with
  | [] => []
  | i :: p' => [i] :: List.map (cons i) (prefixes p')
  end.

Definition properAncestors (p : Path) : list Path := removelast (prefixes p).

Definition nodeMatches (doc : Doc) (c : Compound) (p : Path) : bool :=
  match getNodeIn doc p with
  | Some n => matchCompound c n
  | None => false
  end.

(** [a] is a proper ancestor of [p]. *)
Fixpoint isStrictPrefix (a p : Path) : bool :=
  match a, p with
  | [], _ :: _ => true
  | i :: a', j :: p' => (i =? j)%nat && isStrictPrefix a' p'
  | _, [] => false
  end.

(** The ancestors a descendant combinator may use. A query from the root
    and the filters of the traversal methods look at all of them. Under
    [find], css-select anchors the whole selector at the context element:
    it compiles [A B] as [:scope A B] with a first combinator that also
    accepts the element itself, so the ancestors that count are the
    context element and those below it. *)
Definition ancestorsWithin (scope : option Path) (p : Path) : list Path :=
  match scope with
  | None => properAncestors p
  | Some c =>
      List.filter (fun a => bool_decide (a = c) || isStrictPrefix c a)
        (properAncestors p)
  end.

(** [rc] is a descendant chain, innermost compound first. *)
Fixpoint matchChain (doc : Doc) (scope : option Path) (rc : list Compound)
    (p : Path) : bool :=
  match rc with
  | [] => true
  | c :: rest =>
      nodeMatches doc c p &&
      match rest with
      | [] => true
      | _ :: _ => existsb (matchChain doc scope rest) (ancestorsWithin scope p)
      end
  end.

Definition matchesSel (doc : Doc) (sel : Selector) (p : Path) : bool :=
  existsb (fun cx => matchChain doc None (rev cx) p) sel.

(** [p] is selected by [sel] under the context element [c]. *)
Definition matchesBelow (doc : Doc) (c : Path) (sel : Selector) (p : Path)
  : bool :=
  isStrictPrefix c p
  && existsb (fun cx => matchChain doc (Some c) (rev cx) p) sel.

(** Node-local matching, for detached clones: only compounds. *)
Definition matchesLocal (sels : list Compound) (n : Node) : bool :=
  existsb (fun c => matchCompound c n) sels.

End Css.
Export Css.

(** ** The cheerio operations the parser calls

    A selection is a list of element paths, kept in document order. *)

Module Cheerio.

Definition indexed {A : Type} (l : list A) : list (nat * A) :=
  combine (seq 0 (length l)) l.

(** [$(sel)] *)
Definition select (doc : Doc) (sel : Selector) : list Path :=
  List.filter (matchesSel doc sel) (allElems doc).

(** [ctx.find(sel)] *)
Definition find (doc : Doc) (ctx : list Path) (sel : Selector) : list Path :=
  List.filter (fun p => existsb (fun c => matchesBelow doc c sel p) ctx)
    (allElems doc).

Definition textAt (doc : Doc) (p : Path) : list N :=
  match getNodeIn doc p with
  | Some n => textOf n
  | None => []
  end.

(** [selection.text()] *)
Definition text (doc : Doc) (sel : list Path) : list N :=
  List.concat (List.map (textAt doc) sel).

(** [selection.attr(name)]: the attribute of the first element. *)
Definition attr (doc : Doc) (sel : list Path) (name : list N)
  : option (list N) :=
  match sel with
  | p :: _ => match getNodeIn doc p with
              | Some n => attrOf name n
              | None => None
              end
  | [] => None
  end.

Definition childNodesAt (doc : Doc) (p : Path) : list Node :=
  match getNodeIn doc p with
  | Some n => childNodes n
  | None => []
  end.

(** [$(p).children(sel)] *)
Definition children (doc : Doc) (p : Path) (sel : Selector) : list Path :=
  List.filter (matchesSel doc sel)
    (List.map (fun '(i, _) => p ++ [i])
       (List.filter (fun '(_, n) => isElem n) (indexed (childNodesAt doc p)))).

(** The element siblings after [p] and before [p], nearest first. *)
Definition nextElems (doc : Doc) (p : Path) : list Path :=
  match last p with
  | Some k =>
      List.map (fun '(i, _) => removelast p ++ [i])
        (List.filter (fun '(i, n) => isElem n && (k <? i)%nat)
           (indexed (siblingsOf doc p)))
  | None => []
  end.

Definition prevElems (doc : Doc) (p : Path) : list Path :=
  match last p with
  | Some k =>
      rev (List.map (fun '(i, _) => removelast p ++ [i])
             (List.filter (fun '(i, n) => isElem n && (i <? k)%nat)
                (indexed (siblingsOf doc p))))
  | None => []
  end.

(** [$(p).nextAll(sel)] *)
Definition nextAll (doc : Doc) (p : Path) (sel : Selector) : list Path :=
  List.filter (matchesSel doc sel) (nextElems doc p).

(** [$(p).prevAll(sel)], nearest first as cheerio returns it. *)
Definition prevAll (doc : Doc) (p : Path) (sel : Selector) : list Path :=
  List.filter (matchesSel doc sel) (prevElems doc p).

Fixpoint takeUntil (stop : Path -> bool) (l : list Path) : list Path :=
  match l with
  | [] => []
  | p :: l' => if stop p then [] else p :: takeUntil stop l'
  end.

(** [$(p).nextUntil(stop)] and [$(p).nextUntil(stop, filter)] *)
Definition nextUntilAll (doc : Doc) (p : Path) (stop : Selector) : list Path :=
  takeUntil (matchesSel doc stop) (nextElems doc p).

Definition nextUntil (doc : Doc) (p : Path) (stop keep : Selector)
  : list Path :=
  List.filter (matchesSel doc keep) (nextUntilAll doc p stop).

(** [selection.next(sel)]: for each element its next element sibling, when
    that matches. *)
Definition next (doc : Doc) (sel0 : list Path) (sel : Selector) : list Path :=
  List.filter (matchesSel doc sel)
    (flat_map (fun p => firstn 1 (nextElems doc p)) sel0).

(** [$(p).parent()]: the parent when it is an element. *)
Definition parent (p : Path) : list Path :=
  match removelast p with
  | [] => []
  | q => [q]
  end.

(** [$(p).parents(sel)] *)
Definition parents (doc : Doc) (p : Path) (sel : Selector) : list Path :=
  List.filter (matchesSel doc sel) (rev (properAncestors p)).

(** The text that is left of a clone of a node after
    [clone.find(sels).remove()]: descendants matching one of the compounds
    are cut out; the root of the clone stays. *)
Fixpoint textPruned (sels : list Compound) (n : Node) : list N :=
  match n with
  | Text s => s
  | Comment _ => []
  | Elem _ _ cs =>
      List.concat
        (List.map (fun c => if matchesLocal sels c then [] else textPruned sels c)
           cs)
  end.

(** [$(p).clone().children().remove().end().text()]: the element's own
    text nodes. *)
Definition ownText (doc : Doc) (p : Path) : list N :=
  List.concat
    (List.map (fun c => match c with Text s => s | _ => [] end)
       (childNodesAt doc p)).

End Cheerio.
Export Cheerio.

(** ** The data model *)

Module Model.

Record WordClass : Type := { kode : list N; nama : list N }.

(** An example's [nomor] is a JavaScript number on every path. *)
Record Example : Type := { exNomor : nat; teks : list N }.

(** A meaning's [nomor] is a string on the list paths, a number on the
    compound-word path and missing on the detail page. *)
Inductive Nomor : Type :=
| NoNomor
| StrNomor (s : list N)
| NumNomor (n : nat).

Record Meaning : Type := {
  nomor : Nomor;
  kelasKata : list WordClass;
  definisi : list N;
  contoh : list Example;
  kiasan : option bool
}.

Record Etymology : Type := { etText : list N; languages : list (list N) }.

Record Related : Type := {
  kataTurunan : list (list N);
  gabunganKata : list (list N);
  peribahasa : list (list N);
  idiom : list (list N)
}.

Inductive Value : Type :=
| VNull
| VStr (s : list N)
| VMakna (ms : list Meaning)
| VEtim (e : Etymology)
| VTerkait (r : Related).

(** An entry is a JavaScript object: its keys are ["id"], ["nama"],
    ["nomor"], ["jenis"], ["rootWord"], ["makna"], ["etimologi"] and
    ["terkait"], each present or not. *)
Abbreviation Entry := (gmap string Value).

(** What a call can do: return or throw. The errors are told apart by
    class and message: [CloudflareBlock] is the [CloudflareBlockError] of
    [lookup], [CloudflareChallenge] the plain [Error] the scraper throws
    for the same situation; [URIError] is what [encodeURIComponent]
    throws. *)
Inductive Error : Type :=
| NoWordProvided
| URIError
| FailedToFetch
| CloudflareBlock
| CloudflareChallenge
| NavigationTimeout
| TypeError.

Inductive Outcome (A : Type) : Type :=
| Returned (a : A)
| Threw (e : Error).
Arguments Returned {A} a.
Arguments Threw {A} e.

Definition returned {A : Type} (o : Outcome A) : option A :=
  match o with Returned a => Some a | Threw _ => None end.

Definition bindO {A B : Type} (m : Outcome A) (k : A -> Outcome B)
  : Outcome B :=
  match m with
  | Returned a => k a
  | Threw e => Threw e
  end.

(** JavaScript truthiness of the values an entry holds. *)
Definition truthy (v : option Value) : bool :=
  match v with
  | None | Some VNull => false
  | Some (VStr s) => negb (isEmpty s)
  | Some _ => true
  end.

Definition sentinel : list N := js "Tidak tersedia".
Definition placeholder : list N := js "(Tidak tersedia)".
Definition proposeMarker : list N := js "Usulkan makna baru".

End Model.
Export Model.

(** ** [KBBIParser]: the field extractors *)

Module Parser.

Definition selTag (t : string) : Selector := [[[Tag (js t)]]].
Definition selClass (c : string) : Selector := [[[Class (js c)]]].

(** [h2[style*="margin-bottom:3px"]] *)
Definition selEntryHeading : Selector :=
  [[[Tag (js "h2"); AttrSub (js "style") (js "margin-bottom:3px")]]].

(** [font[color="red"], [color="red"]] (in either order) *)
Definition redCompounds : list Compound :=
  [[Tag (js "font"); AttrEqNoCase (js "color") (js "red")];
   [AttrEqNoCase (js "color") (js "red")]].
Definition selRed : Selector := List.map (fun c => [c]) redCompounds.

(** [font[color="red"] span[title], [color="red"] span[title]] *)
Definition selRedTitled : Selector :=
  List.map (fun c => [c; [Tag (js "span"); HasAttr (js "title")]]) redCompounds.

Definition selTitledSpan : Selector :=
  [[[Tag (js "span"); HasAttr (js "title")]]].

Definition greyCompounds : list Compound :=
  [[Tag (js "font"); AttrEqNoCase (js "color") (js "grey")];
   [AttrEqNoCase (js "color") (js "grey")]].

Definition selHeadingStop : Selector := [[[Tag (js "h2")]]; [[Tag (js "h4")]]].

Definition extractText (doc : Doc) (el : list Path) : list N :=
  match find doc el (selTag "i") with
  | [] => trim (List.concat (List.map (ownText doc) el))
  | italic => trim (text doc italic)
  end.

Definition extractNumber (doc : Doc) (h2 : list Path) : list N :=
  match find doc h2 (selTag "sup") with
  | [] => []
  | sup => trim (text doc sup)
  end.

(** One of the three attempts of [extractId]: the [href] of the first link
    of [links], matched against [/pat(\d+)/]. *)
Definition idFromLinks (doc : Doc) (links : list Path) (pat : list N)
  : option (list N) :=
  match attr doc links (js "href") with
  | Some href => digitsAfter pat href
  | None => None
  end.

Definition extractId (doc : Doc) (h2 : list Path) : option (list N) :=
  let edit := find doc h2 [[[Tag (js "a"); AttrSub (js "href") (js "Edit")]]] in
  let view := find doc h2 [[[Tag (js "a"); AttrSub (js "href") (js "View")]]] in
  let parentLinks :=
    find doc (flat_map parent h2)
      [[[Tag (js "a"); AttrSub (js "href") (js "entri")]]] in
  match idFromLinks doc edit (js "eid=") with
  | Some d => Some d
  | None =>
      match idFromLinks doc view (js "/") with
      | Some d => Some d
      | None => idFromLinks doc parentLinks (js "/")
      end
  end.

(** The texts [extractRootWord] collects from the page-level
    "Kata Dasar" section. *)
Definition kataDasarRoots (doc : Doc) : list (list N) :=
  List.filter (fun t => negb (isEmpty t))
    (List.map (fun l => trim (textAt doc l))
       (find doc
          (next doc (select doc [[[Tag (js "h4"); Contains (js "Kata Dasar")]]])
             (selTag "ul"))
          (selTag "a"))).

(** Text of a root-word link with its superscript rebuilt. *)
Definition rootLinkText (doc : Doc) (link : list Path) : list N :=
  let rootText := trim (text doc link) in
  match find doc link (selTag "sup") with
  | [] => rootText
  | sup =>
      let supText := trim (text doc sup) in
      if isEmpty supText then rootText else rootText ++ toSuperscript supText
  end.

Definition extractRootWord (doc : Doc) (h2 : list Path) : option (list N) :=
  match kataDasarRoots doc with
  | r :: _ => Some r
  | [] =>
      match find doc h2 (selClass "rootword") with
      | [] => None
      | rootword =>
          match find doc rootword (selTag "a") with
          | [] => None
          | link => Some (fixStrayDigit (rootLinkText doc link))
          end
      end
  end.

Definition extractEntryType (doc : Doc) (h2 : Path) : option (list N) :=
  match nextAll doc h2
          [[[Tag (js "small"); AttrSub (js "style") (js "color:saddlebrown")]]]
  with
  | small :: _ => Some (trim (stripTags (textAt doc small)))
  | [] => None
  end.

(** The [switch] of [extractWordClasses]. *)
Definition classTable : list (string * string) :=
  [("n", "Nomina"); ("v", "Verba"); ("a", "Adjektiva"); ("adv", "Adverbia");
   ("num", "Numeralia"); ("p", "Partikel"); ("pron", "Pronomina");
   ("ki", "kiasan"); ("Jp", "Jepang"); ("sing", "singkatan");
   ("Komp", "Komputer"); ("Prw", "Pariwisata"); ("Kap", "Perkapalan")]%string.

Definition lookupClass (table : list (string * string)) (code : list N)
  : list N :=
  match List.find (fun kv => eqb (js (fst kv)) code) table with
  | Some kv => js (snd kv)
  | None => []
  end.

(** [title.split(':')[0]?.trim() || ''] *)
Definition titleName (title : list N) : list N :=
  match splitOn 58 title with
  | t :: _ => trim t
  | [] => []
  end.

Definition isBarePunctuation (t : list N) : bool :=
  eqb t (js ",") || eqb t (js ";") || eqb t (js "(") || eqb t (js ")").

(** Method 1: the titled spans inside red markers. *)
Definition titledClasses (doc : Doc) (li : Path) : list WordClass :=
  flat_map
    (fun span =>
       let code := trim (textAt doc span) in
       match attr doc [span] (js "title") with
       | Some title =>
           if negb (isEmpty code) && negb (isEmpty title)
           then [{| kode := code; nama := titleName title |}] else []
       | None => []
       end)
    (find doc [li] selRedTitled).

(** The name Method 2 gives to a code found in the red marker [font]. *)
Definition markerClassName (doc : Doc) (font : Path) (code : list N) : list N :=
  match find doc [font] selTitledSpan with
  | [] => lookupClass classTable code
  | titleSpan =>
      match attr doc titleSpan (js "title") with
      | Some title => if isEmpty title then [] else titleName title
      | None => []
      end
  end.

(** Method 2: the text of the outermost red markers, split into codes. *)
Definition markerClasses (doc : Doc) (li : Path) : list WordClass :=
  flat_map
    (fun font =>
       match parents doc font selRed with
       | _ :: _ => []
       | [] =>
           flat_map
             (fun part =>
                let cleanPart := trim part in
                if negb (isEmpty cleanPart) && negb (isBarePunctuation cleanPart)
                then [{| kode := cleanPart;
                         nama := markerClassName doc font cleanPart |}]
                else [])
             (let fontText := trim (textAt doc font) in
              if isEmpty fontText then [] else splitWs fontText)
       end)
    (find doc [li] selRed).

Definition extractWordClasses (doc : Doc) (li : Path) : list WordClass :=
  match titledClasses doc li with
  | [] => markerClasses doc li
  | classes => classes
  end.

Definition cleanDefinition (t : list N) : list N :=
  stripLeadingDashes
    (stripTrailingSep (stripLeadingColon (collapseWs (trim t)))).

Definition extractDefinition (doc : Doc) (li : Path) : list N :=
  let remaining :=
    match getNodeIn doc li with
    | Some n =>
        textPruned (greyCompounds ++ redCompounds ++ [[Class (js "entrisButton")]]) n
    | None => []
    end in
  let definition := cleanDefinition remaining in
  if isEmpty definition then sentinel else definition.

(** [examplesText.split(';').forEach((ex, index) => ...)] *)
Definition examplesOfText (examplesText : list N) : list Example :=
  flat_map
    (fun '(index, ex) =>
       let exampleText := trim ex in
       if isEmpty exampleText then []
       else [{| exNomor := index + 1; teks := exampleText |}])
    (indexed (splitOn 59 examplesText)).

Definition extractExamples (doc : Doc) (li : Path) : list Example :=
  match find doc [li]
          [[[Tag (js "font"); AttrEqNoCase (js "color") (js "grey")]]] with
  | [] =>
      let t := trim (textAt doc li) in
      match indexOfChar 58 t with
      | Some colonIndex =>
          let examplesText := trim (drop (S colonIndex) t) in
          if isEmpty examplesText then [] else examplesOfText examplesText
      | None => []
      end
  | exampleElements =>
      flat_map
        (fun '(i, el) =>
           let t := trim (textAt doc el) in
           if isEmpty t then [] else [{| exNomor := i + 1; teks := t |}])
        (indexed exampleElements)
  end.

(** ** [KBBIParser]: meanings *)

Definition mkMeaning (n : Nomor) (classes : list WordClass)
    (definition : list N) (examples : list Example) (ki : option bool)
  : Meaning :=
  {| nomor := n; kelasKata := classes; definisi := definition;
     contoh := examples; kiasan := ki |}.

(** The body of [$list.children('li').each((i, li) => ...)], which
    [parseEntryDirectly] and [extractMeaningsDirectly] both contain: what
    the item at index [i] pushes. *)
Definition itemMeaning (doc : Doc) (i : nat) (li : Path) : list Meaning :=
  if includes proposeMarker (textAt doc li) then []
  else
    let meaningNumber := (i + 1)%nat in
    let wordClasses := extractWordClasses doc li in
    let definition := extractDefinition doc li in
    let examples := extractExamples doc li in
    if isEmpty definition then []
    else [mkMeaning (StrNomor (toString meaningNumber)) wordClasses
            definition examples None].

Definition listMeanings (doc : Doc) (meaningsList : Path) : list Meaning :=
  flat_map (fun '(i, li) => itemMeaning doc i li)
    (indexed (children doc meaningsList (selTag "li"))).

(** [/\b(n|v|a|adv|num|p|pron)\b/]: the first whole word that is one of
    the seven codes. *)
Definition plainClassCodes : list (string * string) := firstn 7 classTable.

Definition classMatch (t : list N) : option (list N) :=
  List.find (fun w => existsb (fun kv => eqb (js (fst kv)) w) plainClassCodes)
    (wordRuns t).

(** The plain-text branch of [extractMeaningsDirectly]. *)
Definition plainTextMeanings (doc : Doc) (h2 : Path) : list Meaning :=
  match nextUntilAll doc h2 selHeadingStop with
  | [] => []
  | content =>
      let t :=
        trim
          (List.concat
             (List.map
                (fun el =>
                   if matchesSel doc (selTag "h4") el
                      || matchesSel doc (selTag "br") el
                   then [] else trim (textAt doc el) ++ [32])
                content)) in
      if negb (isEmpty t) && negb (includes proposeMarker t) then
        match classMatch t with
        | Some code =>
            let name := lookupClass plainClassCodes code in
            [mkMeaning (StrNomor (js "1"))
               (if isEmpty name then [] else [{| kode := code; nama := name |}])
               (trim (replaceFirst code [] t)) [] None]
        | None => [mkMeaning (StrNomor (js "1")) [] t [] None]
        end
      else []
  end.

Definition extractMeaningsDirectly (doc : Doc) (h2 : Path) : list Meaning :=
  let found :=
    match nextUntil doc h2 selHeadingStop (selTag "ol") with
    | l :: _ => Some l
    | [] => head (nextUntil doc h2 selHeadingStop (selTag "ul"))
    end in
  match found with
  | Some l => listMeanings doc l
  | None => plainTextMeanings doc h2
  end.

(** What one [li] of the compound-word list pushes. *)
Definition compoundItemMeaning (doc : Doc) (i : nat) (li : Path)
  : list Meaning :=
  let t := trim (textAt doc li) in
  if includes proposeMarker t then []
  else
    let wordClasses := extractWordClasses doc li in
    let stripped :=
      fold_left (fun d el => replaceFirst (textAt doc el) [] d)
        (find doc [li] selRed) t in
    let cleaned := trim (stripOneSep stripped) in
    let '(definitionText, examples) :=
      match indexOfChar 58 cleaned with
      | Some colonIndex =>
          let examplesText := trim (drop (S colonIndex) cleaned) in
          (trim (take colonIndex cleaned),
           if isEmpty examplesText then [] else examplesOfText examplesText)
      | None => (cleaned, [])
      end in
    if isEmpty definitionText then []
    else [mkMeaning (NumNomor (i + 1)) wordClasses definitionText examples
            (Some (negb (isEmpty
               (find doc [li] [[[Tag (js "i"); Contains (js "ki")]]]))))].

(** A paragraph-style definition pushed onto [meanings]. *)
Definition pushParagraph (meanings : list Meaning) (t : list N)
  : list Meaning :=
  meanings ++ [mkMeaning (NumNomor (length meanings + 1)) [] t [] (Some false)].

(** The [while (nextNode)] loop over the sibling nodes after the heading. *)
Fixpoint textNodeMeanings (nodes : list Node) (meanings : list Meaning)
  : list Meaning :=
  match nodes with
  | [] => meanings
  | Text v :: rest =>
      let t := trim v in
      if negb (isEmpty t) && (5 <? length t)%nat
      then textNodeMeanings rest (pushParagraph meanings t)
      else textNodeMeanings rest meanings
  | Elem tg _ _ :: rest =>
      if eqb tg (js "h2") then meanings else textNodeMeanings rest meanings
  | Comment _ :: rest => textNodeMeanings rest meanings
  end.

(** [$h2] is a selection of at most one element here; on the empty
    selection [$h2.get(0).nextSibling] is a property access on
    [undefined]. *)
Definition extractCompoundWordMeanings (doc : Doc) (h2 : option Path)
  : Outcome (list Meaning) :=
  let sel := option_list h2 in
  let ol :=
    match flat_map (fun h => nextAll doc h (selTag "ol")) sel with
    | o :: _ => Some o
    | [] => head (find doc (flat_map parent sel) (selTag "ol"))
    end in
  let fromList :=
    match ol with
    | Some o =>
        flat_map (fun '(i, li) => compoundItemMeaning doc i li)
          (indexed (find doc [o] (selTag "li")))
    | None => []
    end in
  match fromList with
  | _ :: _ => Returned fromList
  | [] =>
      let container := flat_map parent (flat_map parent sel) in
      let fromParagraphs :=
        fold_left
          (fun meanings el =>
             if bool_decide (head (prevAll doc el (selTag "h2")) = h2)
             then
               let t := trim (textAt doc el) in
               if negb (isEmpty t) && (5 <? length t)%nat
                  && negb (includes proposeMarker t)
               then pushParagraph meanings t else meanings
             else meanings)
          (find doc container [[[Tag (js "p")]]; [[Tag (js "div")]]]) [] in
      match fromParagraphs with
      | _ :: _ => Returned fromParagraphs
      | [] =>
          match h2 with
          | None => Threw TypeError
          | Some h =>
              match last h with
              | Some k =>
                  Returned (textNodeMeanings (drop (S k) (siblingsOf doc h)) [])
              | None => Returned []
              end
          end
      end
  end.

(** ** [KBBIParser]: entries *)

Inductive RelatedKind : Type := KataTurunan | GabunganKata | Peribahasa | Idiom.

Definition relatedType (headingText : list N) : option RelatedKind :=
  if includes (js "Kata Turunan") headingText then Some KataTurunan
  else if includes (js "Gabungan Kata") headingText then Some GabunganKata
  else if includes (js "Peribahasa") headingText then Some Peribahasa
  else if includes (js "Idiom") headingText then Some Idiom
  else None.

Definition relatedGet (k : RelatedKind) (r : Related) : list (list N) :=
  match k with
  | KataTurunan => kataTurunan r
  | GabunganKata => gabunganKata r
  | Peribahasa => peribahasa r
  | Idiom => idiom r
  end.

Definition relatedPush (k : RelatedKind) (t : list N) (r : Related) : Related :=
  match k with
  | KataTurunan =>
      {| kataTurunan := kataTurunan r ++ [t]; gabunganKata := gabunganKata r;
         peribahasa := peribahasa r; idiom := idiom r |}
  | GabunganKata =>
      {| kataTurunan := kataTurunan r; gabunganKata := gabunganKata r ++ [t];
         peribahasa := peribahasa r; idiom := idiom r |}
  | Peribahasa =>
      {| kataTurunan := kataTurunan r; gabunganKata := gabunganKata r;
         peribahasa := peribahasa r ++ [t]; idiom := idiom r |}
  | Idiom =>
      {| kataTurunan := kataTurunan r; gabunganKata := gabunganKata r;
         peribahasa := peribahasa r; idiom := idiom r ++ [t] |}
  end.

Definition extractRelated (doc : Doc) (h2 : Path) : option Related :=
  let related :=
    fold_left
      (fun r section =>
         match relatedType (trim (textAt doc section)) with
         | Some k =>
             fold_left
               (fun r link =>
                  let t := trim (textAt doc link) in
                  if negb (isEmpty t) && negb (existsb (eqb t) (relatedGet k r))
                  then relatedPush k t r else r)
               (find doc (next doc [section] (selTag "ul")) (selTag "a")) r
         | None => r
         end)
      (nextAll doc h2 (selTag "h4"))
      {| kataTurunan := []; gabunganKata := []; peribahasa := []; idiom := [] |}
  in
  if isEmpty (kataTurunan related) && isEmpty (gabunganKata related)
     && isEmpty (peribahasa related) && isEmpty (idiom related)
  then None else Some related.

(** [if (x) entry.key = x] for a string [x]. *)
Definition setIfTruthy (key : string) (x : option (list N)) (entry : Entry)
  : Entry :=
  match x with
  | Some s => if isEmpty s then entry else <[key := VStr s]> entry
  | None => entry
  end.

Definition nullable (x : option (list N)) : Value :=
  match x with Some s => VStr s | None => VNull end.

Section WithEtymology.

(** [extractEtymology] matches regular expressions against [this.$.html()],
    the page serialised back to markup, which this model of the parsed
    tree does not contain; it reads the page only. *)
Variable extractEtymology : Doc -> option Etymology.

Definition parseEntryDirectly (doc : Doc) (h2 : Path) : option Entry :=
  let entryName := trim (extractText doc [h2]) in
  if isEmpty entryName then None
  else
    let entry : Entry :=
      <["id" := nullable (extractId doc [h2])]>
      (<["nama" := VStr (stripSuperscripts entryName)]>
      (<["nomor" := VStr (extractNumber doc [h2])]>
      (<["makna" := VMakna []]> ∅))) in
    let entry := setIfTruthy "jenis" (extractEntryType doc h2) entry in
    let entry := setIfTruthy "rootWord" (extractRootWord doc [h2]) entry in
    let entry :=
      match nextUntil doc h2 selHeadingStop
              [[[Tag (js "ol")]]; [[Tag (js "ul")]]] with
      | meaningsList :: _ =>
          <["makna" := VMakna (listMeanings doc meaningsList)]> entry
      | [] =>
          match extractMeaningsDirectly doc h2 with
          | [] => entry
          | meanings => <["makna" := VMakna meanings]> entry
          end
      end in
    let entry :=
      match extractEtymology doc with
      | Some etymology => <["etimologi" := VEtim etymology]> entry
      | None => entry
      end in
    let entry :=
      match extractRelated doc h2 with
      | Some related => <["terkait" := VTerkait related]> entry
      | None => entry
      end in
    Some entry.

End WithEtymology.

(** The stub of one heading, for scraping. *)
Definition parseEntry (doc : Doc) (h2 : list Path) : option Entry :=
  let nama := extractText doc h2 in
  let nomor := extractNumber doc h2 in
  let id := extractId doc h2 in
  let rootWord := extractRootWord doc h2 in
  match id with
  | None => None
  | Some i =>
      Some (<["nama" := VStr nama]> (<["nomor" := VStr nomor]>
           (<["id" := VStr i]> (<["rootWord" := nullable rootWord]> ∅))))
  end.

Definition parseMirip (doc : Doc) : list (list N) :=
  let texts sel :=
    List.filter (fun t => negb (isEmpty t))
      (List.map (fun el => trim (textAt doc el)) (select doc sel)) in
  texts (selClass "col-md-3")
  ++ texts [[[Tag (js "ul"); Class (js "daftar-selaras")];
             [Tag (js "li")]; [Tag (js "a")]]].

Definition checkAuthentication (doc : Doc) : bool :=
  negb (isEmpty (select doc [[[Tag (js "a"); Contains (js "Keluar")]]]))
  || negb (isEmpty (select doc [[[Tag (js "button"); Contains (js "Keluar")]]])).

(** ** [KBBIParser.parseDetailsPage] *)

Definition getMakna (result : Entry) : option (list Meaning) :=
  match result !! "makna" with
  | Some (VMakna ms) => Some ms
  | _ => None
  end.

Definition withKelasKata (classes : list WordClass) (m : Meaning) : Meaning :=
  mkMeaning (nomor m) classes (definisi m) (contoh m) (kiasan m).

Definition withContoh (f : list Example -> list Example) (m : Meaning)
  : Meaning :=
  mkMeaning (nomor m) (kelasKata m) (definisi m) (f (contoh m)) (kiasan m).

(** [result.makna[result.makna.length - 1]], updated in place. *)
Definition updateLastMakna (f : Meaning -> Meaning) (result : Entry) : Entry :=
  match getMakna result with
  | Some (m :: ms) =>
      <["makna" := VMakna (alter f (length ms) (m :: ms))]> result
  | _ => result
  end.

Definition rowLabel (doc : Doc) (row : Path) : list N :=
  trim (text doc (find doc [row] [[[Class (js "col-md-2")]; [Tag (js "b")]]])).

Definition rowValue (doc : Doc) (row : Path) : list N :=
  trim (text doc (find doc [row] (selClass "col-md-10"))).

Definition classOfText (cls : list N) : WordClass :=
  match matchKelas (trim cls) with
  | Some (k, n) => {| kode := k; nama := n |}
  | None => {| kode := trim cls; nama := [] |}
  end.

Definition kelasOfValue (value : list N) : list WordClass :=
  match matchKelas value with
  | Some (k, n) => [{| kode := k; nama := n |}]
  | None => List.map classOfText (splitOn 44 value)
  end.

(** The body of [this.$('.row').each(...)] on a row with this label and
    value. *)
Definition applyRow (label value : list N) (result : Entry) : Entry :=
  if isEmpty value || eqb value placeholder then result
  else if eqb label (js "Eid") then <["id" := VStr value]> result
  else if eqb label (js "Entri") then <["nama" := VStr value]> result
  else if eqb label (js "Id Homonim") then <["nomor" := VStr value]> result
  else if eqb label (js "Jenis Entri") then <["jenis" := VStr value]> result
  else if eqb label (js "Induk Kata") then
    <["rootWord" := VStr (match matchIndukKata value with
                          | Some g => trim g
                          | None => value
                          end)]> result
  else if eqb label (js "Makna") then
    <["makna" := VMakna (default [] (getMakna result)
                         ++ [mkMeaning NoNomor [] value [] None])]> result
  else if eqb label (js "Kelas Kata") then
    updateLastMakna (withKelasKata (kelasOfValue value)) result
  else if eqb label (js "Contoh") then
    updateLastMakna
      (withContoh (fun exs =>
         exs ++ [{| exNomor := length exs + 1; teks := value |}]))
      result
  else result.

Definition applyRows (doc : Doc) (rows : list Path) (result : Entry) : Entry :=
  fold_left (fun r row => applyRow (rowLabel doc row) (rowValue doc row) r)
    rows result.

(** [findIndex] and the assignment to the example found. *)
Fixpoint replaceExample (n : nat) (t : list N) (exs : list Example)
  : option (list Example) :=
  match exs with
  | [] => None
  | e :: r =>
      if (exNomor e =? n)%nat then Some ({| exNomor := exNomor e; teks := t |} :: r)
      else cons e <$> replaceExample n t r
  end.

Definition putExample (n : nat) (t : list N) (exs : list Example)
  : list Example :=
  match replaceExample n t exs with
  | Some exs' => exs'
  | None => exs ++ [{| exNomor := n; teks := t |}]
  end.

(** The text of the first row labelled [Contoh] between this header and
    the next. *)
Definition sectionExampleText (doc : Doc) (h4 : Path) : list N :=
  match List.find (fun row => eqb (rowLabel doc row) (js "Contoh"))
          (nextUntil doc h4 (selTag "h4") (selClass "row")) with
  | Some row => rowValue doc row
  | None => []
  end.

(** The body of the loop over the [Contoh #M-N] headers. With [M = 0] and
    meanings present, [result.makna[-1]] is [undefined] and reading its
    [contoh] throws. *)
Definition applyContohHeader (doc : Doc) (h4 : Path) (result : Entry)
  : Outcome Entry :=
  match matchContohHeader (textAt doc h4) with
  | None => Returned result
  | Some (meaningNum, exampleNum) =>
      match getMakna result with
      | None => Returned result
      | Some ms =>
          if (length ms <? meaningNum)%nat then Returned result
          else match meaningNum with
               | O => Threw TypeError
               | S k =>
                   let exampleText := sectionExampleText doc h4 in
                   if negb (isEmpty exampleText)
                      && negb (eqb exampleText placeholder)
                   then
                     Returned
                       (<["makna" :=
                           VMakna (alter
                                     (withContoh
                                        (putExample exampleNum
                                           (trim (stripBrackets exampleText))))
                                     k ms)]> result)
                   else Returned result
               end
      end
  end.

Definition contohHeaders (doc : Doc) : list Path :=
  List.filter (fun h4 => startsWith (js "Contoh #") (trim (textAt doc h4)))
    (select doc (selTag "h4")).

Fixpoint applyContohHeaders (doc : Doc) (hs : list Path) (result : Entry)
  : Outcome Entry :=
  match hs with
  | [] => Returned result
  | h4 :: rest =>
      bindO (applyContohHeader doc h4 result) (applyContohHeaders doc rest)
  end.

(** The root word of the page title, when it has a root-word link. *)
Definition titleRootWord (doc : Doc) : option (list N) :=
  match select doc [[[Class (js "page-header")]; [Tag (js "h2")]]] with
  | [] => None
  | title =>
      match find doc title [[[Class (js "rootword")]; [Tag (js "a")]]] with
      | [] => None
      | rootWord =>
          Some (trim (text doc rootWord)
                ++ match find doc rootWord (selTag "sup") with
                   | [] => []
                   | sup => toSuperscript (trim (text doc sup))
                   end)
      end
  end.

Definition rootWordFallback (doc : Doc) (result : Entry) : Entry :=
  if truthy (result !! "rootWord") then result
  else match titleRootWord doc with
       | Some r => <["rootWord" := VStr r]> result
       | None => result
       end.

Definition isCompoundName (result : Entry) : bool :=
  match result !! "nama" with
  | Some (VStr n) => negb (isEmpty n) && includes [32] n
  | _ => false
  end.

Definition maknaIncomplete (result : Entry) : bool :=
  match getMakna result with
  | None => true
  | Some ms =>
      forallb (fun m => isEmpty (definisi m) || eqb (definisi m) [0x2192]) ms
  end.

Definition compoundFallback (doc : Doc) (result : Entry) : Outcome Entry :=
  if isCompoundName result && maknaIncomplete result then
    bindO (extractCompoundWordMeanings doc (head (select doc (selTag "h2"))))
      (fun compoundMeanings =>
         match compoundMeanings with
         | [] => Returned result
         | _ :: _ => Returned (<["makna" := VMakna compoundMeanings]> result)
         end)
  else Returned result.

Definition parseDetailsPage (doc : Doc) : Outcome (option Entry) :=
  let result := applyRows doc (select doc (selClass "row")) ∅ in
  bindO (applyContohHeaders doc (contohHeaders doc) result) (fun result =>
  let result := rootWordFallback doc result in
  bindO (compoundFallback doc result) (fun result =>
  Returned (if (0 <? size result)%nat then Some result else None))).

(** ** [KBBIParser.parseEntries] *)

Record ParseResult : Type := {
  prEntries : list Entry;
  prMirip : option (list (list N))   (* [None]: the key is missing *)
}.

Definition selNotFound : Selector :=
  [[[Tag (js "div"); Contains (js "Entri tidak ditemukan")]]].

Definition selDetailMarker : Selector :=
  [[[Class (js "page-header")]; [Tag (js "h2"); Contains (js "Detail Data")]]].

Section Entries.

Variable extractEtymology : Doc -> option Etymology.

Definition parseEntries (doc : Doc) : Outcome ParseResult :=
  let entryHeadings := select doc selEntryHeading in
  if isEmpty entryHeadings && negb (isEmpty (select doc selNotFound)) then
    Returned {| prEntries := []; prMirip := Some (parseMirip doc) |}
  else if negb (isEmpty (select doc selDetailMarker)) then
    bindO (parseDetailsPage doc) (fun entry =>
      Returned {| prEntries := option_list entry; prMirip := None |})
  else
    Returned {| prEntries :=
                  omap (parseEntryDirectly extractEtymology doc) entryHeadings;
                prMirip := None |}.

End Entries.

End Parser.
Export Parser.

(** ** The orchestrators: [KBBIScraper.scrapeWord] and [KBBI.lookup] *)

Module Scraper.

(** The search address of a word and the details address built from an
    entry id: the two families of addresses, kept symbolic. *)
Inductive Url : Type :=
| SearchUrl (word : list N)
| DetailsUrl (eid : list N).

(** [Utils.buildUrl(word)]: [encodeURIComponent] throws on a word with a
    lone surrogate. *)
Definition buildUrl (word : list N) : Outcome Url :=
  if isWellFormed word then Returned (SearchUrl word) else Threw URIError.

(** The world outside: Playwright, the rendered site and the cookie store,
    as operations on a state [W]. [BrowserManager] wraps every Playwright
    call in [try]/[catch], so an operation that throws is one that
    reports failure here. [launch] says whether [initBrowser] got as far
    as a browser context and as far as a page; [goto] stands for
    [page.goto] followed by [page.content] and [cheerio.load], and gives
    [None] when the page could not be rendered or its content is empty. *)
Record World (W : Type) : Type := {
  launch : W -> (bool * bool) * W;
  goto : Url -> W -> option Doc * W;
  evaluateChallenge : W -> option bool * W;
  waitForNavigation : W -> bool * W;
  getCookieString : W -> option (list N) * W;
  addCookies : list N -> W -> W;
  closeBrowser : W -> W;
  sleep : nat -> W -> W
}.
Arguments launch {W} _ _.
Arguments goto {W} _ _ _.
Arguments evaluateChallenge {W} _ _.
Arguments waitForNavigation {W} _ _.
Arguments getCookieString {W} _ _.
Arguments addCookies {W} _ _ _.
Arguments closeBrowser {W} _ _.
Arguments sleep {W} _ _ _.

Record ScrapeResult : Type := {
  word : list N;
  authenticated : bool;
  entries : list Entry;
  mirip : option (list (list N))   (* [None]: [undefined] *)
}.

Record Options : Type := { headless : bool }.

(** [{...entry, ...details}]: the keys of [details] win; spreading [null]
    adds nothing. *)
Definition mergeEntry (entry : Entry) (details : option Entry) : Entry :=
  default ∅ details ∪ entry.

(** [entry.id] when it is truthy; an id is [null] or a string. *)
Definition entryId (entry : Entry) : option (list N) :=
  match entry !! "id" with
  | Some (VStr s) => if isEmpty s then None else Some s
  | _ => None
  end.

Section Orchestrator.

Context {W : Type}.
Variable world : World W.
Variable extractEtymology : Doc -> option Etymology.
Variable options : Options.

(** Computations that change the world and return or throw. *)
Definition M (A : Type) : Type := W -> Outcome A * W.

Definition ret {A : Type} (a : A) : M A := fun w => (Returned a, w).
Definition throw {A : Type} (e : Error) : M A := fun w => (Threw e, w).
Definition bind {A B : Type} (m : M A) (k : A -> M B) : M B :=
  fun w => match m w with
           | (Returned a, w') => k a w'
           | (Threw e, w') => (Threw e, w')
           end.
Definition lift {A : Type} (op : W -> A * W) : M A :=
  fun w => let '(a, w') := op w in (Returned a, w').
Definition effect (op : W -> W) : M unit := fun w => (Returned tt, op w).
Definition ofOutcome {A : Type} (o : Outcome A) : M A := fun w => (o, w).

(** [try { body } finally { close }] for a body that still holds a
    browser when it throws. *)
Definition closingOnThrow {A : Type} (m : M A) : M A :=
  fun w => match m w with
           | (Threw e, w') => (Threw e, closeBrowser world w')
           | r => r
           end.

Local Notation "'let*' x ':=' m 'in' k" := (bind m (fun x => k))
  (at level 10, x pattern, m at level 100, k at level 200).

(** [new BrowserManager], [initBrowser] and the cookie:
    [setCustomCookie] does nothing without a context. The result says
    whether there is a page. *)
Definition openBrowser : M bool :=
  let* launched := lift (launch world) in
  let '(context, page) := launched in
  let* cookieString := lift (getCookieString world) in
  let* _ :=
    match cookieString with
    | Some c => if context : bool then effect (addCookies world c) else ret tt
    | None => ret tt
    end in
  ret page.

(** [navigateTo(url)], which returns [null] without a page. *)
Definition navigate (page : bool) (url : Url) : M (option Doc) :=
  if page then lift (goto world url) else ret None.

Definition openAndNavigate (url : Url) : M (option Doc) :=
  let* page := openBrowser in
  navigate page url.

(** [checkCloudflare], then waiting for the user or giving up with the
    error [blocked] of the caller. *)
Definition passChallenge (blocked : Error) : M unit :=
  let* isCloudflare := lift (evaluateChallenge world) in
  if default false isCloudflare then
    if headless options then throw blocked
    else
      let* arrived := lift (waitForNavigation world) in
      if arrived : bool then ret tt else throw NavigationTimeout
  else ret tt.

(** The body of the [for (const entry of entries)] loop for an entry with
    an id: what is pushed. *)
Definition fetchDetail (entry : Entry) (id : list N) : M Entry :=
  let* detailsHtml := openAndNavigate (DetailsUrl id) in
  let* pushed :=
    match detailsHtml with
    | Some detailsDoc =>
        let* details := ofOutcome (parseDetailsPage detailsDoc) in
        ret (mergeEntry entry details)
    | None => ret entry
    end in
  let* _ := effect (closeBrowser world) in
  let* _ := effect (sleep world 500) in
  ret pushed.

Fixpoint detailLoop (stubs : list Entry) (detailedEntries : list Entry)
  : M (list Entry) :=
  match stubs with
  | [] => ret detailedEntries
  | entry :: rest =>
      match entryId entry with
      | None => detailLoop rest detailedEntries
      | Some id =>
          let* pushed := fetchDetail entry id in
          detailLoop rest (detailedEntries ++ [pushed])
      end
  end.

(** The stubs of the search page. *)
Definition stubsOf (doc : Doc) : list Entry :=
  omap (fun h2 => parseEntry doc [h2]) (select doc selEntryHeading).

(** The address is built before any browser of this call exists; the
    [finally] block finds none to close when building it throws. *)
Definition scrapeWord (w0 : list N) : M ScrapeResult :=
  if isEmpty w0 then throw NoWordProvided
  else
    match buildUrl w0 with
    | Threw e => throw e
    | Returned url =>
        closingOnThrow (
          let* html := openAndNavigate url in
          match html with
          | None => throw FailedToFetch
          | Some doc =>
              let* _ := passChallenge CloudflareChallenge in
              let auth := checkAuthentication doc in
              let stubs := stubsOf doc in
              let suggestions := parseMirip doc in
              let* _ := effect (closeBrowser world) in
              match stubs with
              | [] =>
                  ret {| word := w0; authenticated := auth; entries := [];
                         mirip := Some suggestions |}
              | _ :: _ =>
                  let* detailedEntries := detailLoop stubs [] in
                  ret {| word := w0; authenticated := auth;
                         entries := detailedEntries;
                         mirip := Some suggestions |}
              end
          end)
    end.

(** Here the address is built after the browser was opened. *)
Definition lookup (w0 : list N) : M ScrapeResult :=
  if isEmpty w0 then throw NoWordProvided
  else
    let* r := closingOnThrow (
      let* page := openBrowser in
      let* url := ofOutcome (buildUrl w0) in
      let* html := navigate page url in
      match html with
      | None => throw FailedToFetch
      | Some doc =>
          let* _ := passChallenge CloudflareBlock in
          let auth := checkAuthentication doc in
          let* parsed := ofOutcome (parseEntries extractEtymology doc) in
          ret {| word := w0; authenticated := auth;
                 entries := prEntries parsed; mirip := prMirip parsed |}
      end) in
    let* _ := effect (closeBrowser world) in
    ret r.

End Orchestrator.

End Scraper.
Export Scraper.

(** ** Pages and worlds used as concrete inputs *)

Module Fixtures.

Definition el (t : string) (a : list (string * string)) (c : list Node) : Node :=
  Elem (js t) (List.map (fun '(k, v) => (js k, js v)) a) c.
Definition tx (s : string) : Node := Text (js s).

Definition heading (c : list Node) : Node :=
  el "h2" [("style", "margin-bottom:3px")%string] c.

Definition row (label value : string) : Node :=
  el "div" [("class", "row")%string]
    [el "div" [("class", "col-md-2")%string] [el "b" [] [tx label]];
     el "div" [("class", "col-md-10")%string] [tx value]].

(** A page as [cheerio.load] builds it: everything sits in the body. *)
Definition page (body : list Node) : Doc :=
  [el "html" [] [el "head" [] []; el "body" [] body]].

(** The element of the body that [p] leads to. *)
Definition inBody (p : Path) : Path := 0%nat :: 1%nat :: p.

Definition noEtymology : Doc -> option Etymology := fun _ => None.

(** A world that serves one search page and a table of detail pages, and
    logs the addresses it was asked for. *)
Definition scripted (search : option Doc) (detail : list N -> option Doc)
    (challenge : bool) : World (list Url) :=
  {| launch := fun w => ((true, true), w);
     goto := fun u w =>
       (match u with SearchUrl _ => search | DetailsUrl i => detail i end,
        w ++ [u]);
     evaluateChallenge := fun w => (Some challenge, w);
     waitForNavigation := fun w => (true, w);
     getCookieString := fun w => (None, w);
     addCookies := fun _ w => w;
     closeBrowser := fun w => w;
     sleep := fun _ w => w |}.

(** A search page: one heading with an edit link, and a side column. *)
Definition searchPage : Doc :=
  page
  [el "div" []
     [heading [tx "cinta";
               el "a" [("href", "/Entri/Edit?eid=123")%string] [tx "edit"]];
      el "ol" [] [el "li" [] [el "font" [("color", "red")%string] [tx "a"];
                              tx " suka sekali"]]];
   el "div" [("class", "col-md-3")%string] [tx "cinta kasih"]].

(** A search page whose only heading carries no id. *)
Definition searchPageNoId : Doc :=
  page
  [el "div" [] [heading [tx "cinta"]; el "ol" [] [el "li" [] [tx "suka"]]]].

(** A detail page. *)
Definition detailPage : Doc :=
  page
  [el "div" [("class", "page-header")%string] [el "h2" [] [tx "Detail Data"]];
   row "Eid" "123"; row "Entri" "cinta"; row "Makna" "suka sekali";
   row "Kelas Kata" "a (Adjektiva)"].

(** A page with nothing the detail parser recognises. *)
Definition blankPage : Doc := page [el "div" [] [tx "Galat"]].

(** A detail page that also shows the not-found text. *)
Definition detailPageWithNotFoundText : Doc :=
  page
  [el "div" [("class", "page-header")%string] [el "h2" [] [tx "Detail Data"]];
   row "Eid" "123";
   el "div" [] [tx "Entri tidak ditemukan"]].


(** A heading followed by a bare class code and no list. *)
Definition bareCodePage : Doc :=
  page
  [el "div" [] [heading [tx "cinta"]; el "p" [] [tx "n"]]].

(** A heading whose text is a superscript two and nothing else. *)
Definition superscriptOnlyPage : Doc :=
  page
  [el "div" [] [Elem (js "h2") [(js "style", js "margin-bottom:3px")]
                  [Text [0xB2]]]].



(** A search page with two headings, ids 1 and 2. *)
Definition searchPageTwo : Doc :=
  page
  [el "div" []
     [heading [tx "apel";
               el "a" [("href", "/Entri/Edit?eid=1")%string] [tx "edit"]];
      heading [tx "apel";
               el "a" [("href", "/Entri/Edit?eid=2")%string] [tx "edit"]]]].

(** The detail page of id 1 is served; the fetch for id 2 fails. *)
Definition onlyFirstDetail (id : list N) : option Doc :=
  if eqb id (js "1") then Some detailPage else None.

(** A page with the not-found text and two suggestions. *)
Definition notFoundPage : Doc :=
  page
  [el "div" [] [tx "Entri tidak ditemukan."];
   el "ul" [("class", "daftar-selaras")%string]
     [el "li" [] [el "a" [("href", "/entri/cita")%string] [tx "cita"]];
      el "li" [] [el "a" [("href", "/entri/cinta")%string] [tx "cinta"]]]].

(** What [parseDetailsPage] returns for [detailPage]. *)
Definition detailEntry : Entry :=
  Eval vm_compute in
    default ∅ (default None (returned (parseDetailsPage detailPage))).

Definition headlessOn : Options := {| headless := true |}.

Definition noResult : ScrapeResult :=
  {| word := []; authenticated := false; entries := []; mirip := None |}.

(** What [scrapeWord] returns for the two-heading page. *)
Definition twoStubsResult : ScrapeResult :=
  Eval vm_compute in
    default noResult
      (returned
         (fst (scrapeWord (scripted (Some searchPageTwo) onlyFirstDetail false)
                 headlessOn (js "apel") []))).

End Fixtures.

(** ** Vocabulary of the statements *)

(** The classification order as the specification words it: the detail
    marker first, then the not-found test, then search results. *)
Definition parseEntriesPerSpec (et : Doc -> option Etymology) (doc : Doc)
  : Outcome ParseResult :=
  let entryHeadings := select doc selEntryHeading in
  if negb (isEmpty (select doc selDetailMarker)) then
    bindO (parseDetailsPage doc) (fun entry =>
      Returned {| prEntries := option_list entry; prMirip := None |})
  else if isEmpty entryHeadings && negb (isEmpty (select doc selNotFound)) then
    Returned {| prEntries := []; prMirip := Some (parseMirip doc) |}
  else
    Returned {| prEntries := omap (parseEntryDirectly et doc) entryHeadings;
                prMirip := None |}.

(** A row populates a key of the result by itself when it has a value and
    one of these labels; [Kelas Kata] and [Contoh] rows only change a
    meaning that is already there. *)
Definition rowPopulates (label value : list N) : bool :=
  negb (isEmpty value || eqb value placeholder)
  && (eqb label (js "Eid") || eqb label (js "Entri")
      || eqb label (js "Id Homonim") || eqb label (js "Jenis Entri")
      || eqb label (js "Induk Kata") || eqb label (js "Makna")).


Definition hasMarker (doc : Doc) (li : Path) : bool :=
  includes proposeMarker (textAt doc li).

(** The meaning a retained list item at index [i] becomes. *)
Definition meaningAt (doc : Doc) (i : nat) (li : Path) : Meaning :=
  mkMeaning (StrNomor (toString (i + 1))) (extractWordClasses doc li)
    (extractDefinition doc li) (extractExamples doc li) None.

(** What the detail phase pushes for a stub, in some state of the world:
    the stub as it is when its detail page is not fetched or is parsed to
    nothing, and the stub with the parsed detail merged onto it
    otherwise. *)
Definition pushedFor {W : Type} (world : World W) (stub e : Entry) : Prop :=
  exists id w,
    entryId stub = Some id
    /\ match fst (openAndNavigate world (DetailsUrl id) w) with
       | Returned None => e = stub
       | Returned (Some d) =>
           match parseDetailsPage d with
           | Returned None => e = stub
           | Returned (Some D) => e = mergeEntry stub (Some D)
           | Threw _ => False
           end
       | Threw _ => False
       end.

Definition hasId (doc : Doc) (h2 : Path) : bool :=
  match extractId doc [h2] with Some _ => true | None => false end.

(** [r.id] is missing or a non-empty string. *)
Definition idWellFormed (r : Entry) : Prop :=
  r !! "id" = None \/ exists s, r !! "id" = Some (VStr s) /\ s <> [].

(** ** [Utils.wrapText] *)

Module Utils.

(** [lines.join(sep)] *)
Fixpoint join (sep : list N) (lines : list (list N)) : list N :=
  match lines with
  | [] => []
  | [l] => l
  | l :: rest => l ++ sep ++ join sep rest
  end.

(** The [for (const word of words)] loop and the final push: the lines
    array when the loop is over. *)
Fixpoint wrapWords (width : nat) (words : list (list N))
    (lines : list (list N)) (currentLine : list N) : list (list N) :=
  match words with
  | [] => if isEmpty currentLine then lines else lines ++ [currentLine]
  | word :: rest =>
      if (width <? length currentLine + length word + 1)%nat
      then wrapWords width rest (lines ++ [currentLine]) word
      else wrapWords width rest lines
             (if isEmpty currentLine then word
              else currentLine ++ [32] ++ word)
  end.

Definition wrapText (text : list N) (width : nat) : list N :=
  if isEmpty text then []
  else if (length text <=? width)%nat then text
  else join [10] (wrapWords width (splitOn 32 text) [] []).

End Utils.

(** ** [KBBIScraper.fetchMultipleDetails] *)

Module FetchMultiple.

(** The [details] of one result: what [parseDetailsPage] returned, or an
    object with an [error] message: the fixed message of a failed fetch,
    or the message of what was caught. *)
Inductive Details : Type :=
| Parsed (details : option Entry)
| FailedToFetchDetails
| Caught (e : Error).

Record Result : Type := { entryId : list N; details : Details }.

Section Loop.

Context {W : Type}.
Variable world : World W.

(** The [try] block with its [catch], for one id. Saving a debug file
    never throws and changes nothing that is recorded here. *)
Definition fetchOne (id : list N) : M (W := W) Result :=
  bind (openAndNavigate world (DetailsUrl id)) (fun html =>
  ret {| entryId := id;
         details :=
           match html with
           | Some doc =>
               match parseDetailsPage doc with
               | Returned d => Parsed d
               | Threw e => Caught e
               end
           | None => FailedToFetchDetails
           end |}).

Fixpoint fetchLoop (entryIds : list (list N)) (results : list Result)
  : M (W := W) (list Result) :=
  match entryIds with
  | [] => ret results
  | id :: rest =>
      bind (fetchOne id) (fun r =>
      bind (effect (closeBrowser world)) (fun _ =>
      bind (effect (sleep world 500)) (fun _ =>
      fetchLoop rest (results ++ [r]))))
  end.

Definition fetchMultipleDetails (entryIds : list (list N))
  : M (W := W) (list Result) :=
  fetchLoop entryIds [].

End Loop.

End FetchMultiple.

(** ** [Auth]: the cookie store *)

Module Auth.

(** The cookies file: missing, not a JSON array, or an array of
    strings. *)
Inductive CookieFile : Type :=
| Missing
| Malformed
| Saved (cookies : list (list N)).

(** The file and whether [fs.writeFileSync] succeeds on it. *)
Record Fs : Type := { file : CookieFile; writable : bool }.

(** A call returns or throws ['Cookie value is required']. *)
Inductive Result (A : Type) : Type :=
| Done (a : A)
| CookieValueRequired.
Arguments Done {A} a.
Arguments CookieValueRequired {A}.

(** The read with its inner [try]/[catch]: anything but an array counts
    as no cookies. *)
Definition readCookies (f : CookieFile) : list (list N) :=
  match f with
  | Saved cookies => cookies
  | Missing | Malformed => []
  end.

Definition cookieName : list N := js ".AspNet.ApplicationCookie".
Definition cookiePrefix : list N := cookieName ++ [61].

(** [\.AspNet\.ApplicationCookie=([^;]+)] at the head of [s]. *)
Definition valueAt (s : list N) : option (list N) :=
  if startsWith cookiePrefix s then
    let v := takeWhile (fun c => negb (c =? 59)) (drop (length cookiePrefix) s) in
    if isEmpty v then None else Some v
  else None.

(** The matches that start with a white-space character. *)
Fixpoint valueAfterSpace (s : list N) : option (list N) :=
  match s with
  | [] => None
  | c :: s' =>
      match (if isSpace c then valueAt s' else None) with
      | Some v => Some v
      | None => valueAfterSpace s'
      end
  end.

(** Group 1 of
    [cookieValue.match(/(?:^|\s)\.AspNet\.ApplicationCookie=([^;]+)/)]. *)
Definition applicationCookieValue (s : list N) : option (list N) :=
  match valueAt s with
  | Some v => Some v
  | None => valueAfterSpace s
  end.

(** The value [addCookie] stores for what it was given. *)
Definition valueToStore (cookieValue : list N) : list N :=
  if includes [61] cookieValue then
    match applicationCookieValue cookieValue with
    | Some v => v
    | None => cookieValue
    end
  else cookieValue.

Definition write (cookies : list (list N)) (fs : Fs) : Fs :=
  {| file := Saved cookies; writable := writable fs |}.

Definition addCookie (cookieValue : list N) (fs : Fs) : Result bool * Fs :=
  if isEmpty cookieValue then (CookieValueRequired, fs)
  else
    let value := valueToStore cookieValue in
    let cookies := readCookies (file fs) in
    let cookies :=
      if existsb (eqb value) cookies then cookies else cookies ++ [value] in
    if writable fs then (Done true, write cookies fs) else (Done false, fs).

Definition removeCookie (cookieValue : list N) (fs : Fs) : Result bool * Fs :=
  if isEmpty cookieValue then (CookieValueRequired, fs)
  else
    match file fs with
    | Missing => (Done false, fs)
    | _ =>
        let initial := readCookies (file fs) in
        let cookies := List.filter (fun c => negb (eqb c cookieValue)) initial in
        let cookies :=
          if (length initial =? length cookies)%nat
             && (10 <? length cookieValue)%nat
          then List.filter (fun c => negb (startsWith (take 10 cookieValue) c))
                 cookies
          else cookies in
        let removed := (length cookies <? length initial)%nat in
        if writable fs then (Done removed, write cookies fs)
        else (Done false, fs)
    end.

Definition maskCookie (cookie : list N) : list N :=
  if isEmpty cookie then js "(invalid cookie)"
  else if (length cookie <=? 10)%nat then cookie
  else take 5 cookie ++ js "..." ++ drop (length cookie - 5) cookie.

Record Listing : Type := {
  cookies : list (list N);
  maskedCookies : list (list N);
  count : nat
}.

Definition listCookies (fs : Fs) : Listing :=
  let cs := readCookies (file fs) in
  {| cookies := cs; maskedCookies := List.map maskCookie cs;
     count := length cs |}.

(** [Math.random()] is the fraction [p / q]; the index is
    [Math.floor(Math.random() * cookies.length)]. *)
Definition getRandomCookie (random : nat * nat) (fs : Fs) : option (list N) :=
  let cs := cookies (listCookies fs) in
  match cs with
  | [] => None
  | _ :: _ => cs !! (fst random * length cs / snd random)%nat
  end.

Definition getCookieString (random : nat * nat) (fs : Fs) : option (list N) :=
  match getRandomCookie random fs with
  | Some cookie => if isEmpty cookie then None else Some (cookiePrefix ++ cookie)
  | None => None
  end.

End Auth.

(** ** [BrowserManager]: cookie strings *)

Module BrowserManager.

Record Cookie : Type := {
  name : list N;
  value : list N;
  domain : list N;
  path : list N
}.

(** [_parseCookieString]: [pair.split('=', 2)] keeps the first two
    pieces. *)
Definition _parseCookieString (cookieString : list N) : list Cookie :=
  flat_map
    (fun pair =>
       if includes [61] pair then
         match splitOn 61 pair with
         | n :: v :: _ =>
             [{| name := trim n; value := trim v;
                 domain := js "kbbi.kemdikbud.go.id"; path := js "/" |}]
         | _ => []
         end
       else [])
    (splitOn 59 cookieString).

End BrowserManager.

(** ** Vocabulary of the further statements *)

(** No white space at either end. *)
Definition trimmed (s : list N) : Prop :=
  headIs isSpace s = false /\ headIs isSpace (rev s) = false.

(** Every white-space character is a plain space that no white space
    follows. *)
Fixpoint singleSpaced (s : list N) : bool :=
  match s with
  | [] => true
  | c :: s' =>
      (negb (isSpace c) || ((c =? 32) && negb (headIs isSpace s')))
      && singleSpaced s'
  end.

(** The superscript digits the name pattern removes. *)
Definition isSuperscriptDigit (c : N) : bool := isSupNotOne c || (c =? 0xB9).

(** A fitting line of [wrapText]: within the width, or one word. *)
Definition fitsWidth (width : nat) (line : list N) : Prop :=
  (length line <= width)%nat \/ ~ In 32 line.

(** The lines [wrapText] joins. *)
Definition wrapLines (text : list N) (width : nat) : list (list N) :=
  if isEmpty text then []
  else if (length text <=? width)%nat then [text]
  else Utils.wrapWords width (splitOn 32 text) [] [].

(** The non-empty words of some lines. *)
Definition wordsOf (lines : list (list N)) : list (list N) :=
  List.filter (fun w => negb (isEmpty w)) (flat_map (splitOn 32) lines).

(** The values of the rows labelled [Makna] that are not skipped. *)
Definition maknaValues (doc : Doc) (rows : list Path) : list (list N) :=
  List.map (rowValue doc)
    (List.filter
       (fun row =>
          eqb (rowLabel doc row) (js "Makna")
          && negb (isEmpty (rowValue doc row)
                   || eqb (rowValue doc row) placeholder))
       rows).

Definition maknaOf (e : Entry) : list Meaning := default [] (getMakna e).



(** ** Browsers in use *)

(** How the browsers were used so far: how many are open, and whether the
    discipline was kept that a browser is launched only while none is
    open and closed only while one is. *)
Record Usage : Type := { openBrowsers : nat; disciplined : bool }.

Definition idle : Usage := {| openBrowsers := 0; disciplined := true |}.

Definition launched (u : Usage) : Usage :=
  {| openBrowsers := S (openBrowsers u);
     disciplined := disciplined u && (openBrowsers u =? 0)%nat |}.

Definition closed (u : Usage) : Usage :=
  {| openBrowsers := pred (openBrowsers u);
     disciplined := disciplined u && (0 <? openBrowsers u)%nat |}.

(** Any world, with the use of its browsers recorded beside it. *)
Definition counting {W : Type} (world : World W) : World (W * Usage) :=
  {| launch := fun s => let (r, w) := launch world (fst s) in
                        (r, (w, launched (snd s)));
     goto := fun u s => let (r, w) := goto world u (fst s) in (r, (w, snd s));
     evaluateChallenge := fun s =>
       let (r, w) := evaluateChallenge world (fst s) in (r, (w, snd s));
     waitForNavigation := fun s =>
       let (r, w) := waitForNavigation world (fst s) in (r, (w, snd s));
     getCookieString := fun s =>
       let (r, w) := getCookieString world (fst s) in (r, (w, snd s));
     addCookies := fun c s => (addCookies world c (fst s), snd s);
     closeBrowser := fun s => (closeBrowser world (fst s), closed (snd s));
     sleep := fun ms s => (sleep world ms (fst s), snd s) |}.

(** ** Addresses visited *)


(** ** Further concrete inputs *)

Module MoreFixtures.

Import Fixtures.

(** The stub of the first heading of [searchPageTwo]. *)
Definition twoStubsFirst : Entry :=
  Eval vm_compute in
    default ∅ (parseEntry searchPageTwo [inBody [0; 0]%nat]).

Definition directEntry : Entry :=
  Eval vm_compute in
    default ∅ (parseEntryDirectly noEtymology searchPage (inBody [0; 0]%nat)).

(** A heading followed by a section of derived words, one of them listed
    twice. *)
Definition relatedPage : Doc :=
  page
  [el "div" []
     [heading [tx "cinta"];
      el "h4" [] [tx "Kata Turunan"];
      el "ul" [] [el "li" [] [el "a" [] [tx " bercinta "]];
                  el "li" [] [el "a" [] [tx "bercinta"]];
                  el "li" [] [el "a" [] [tx "mencintai"]]]]].

Definition relatedOfPage : Related :=
  Eval vm_compute in
    default {| kataTurunan := []; gabunganKata := []; peribahasa := [];
               idiom := [] |}
      (extractRelated relatedPage (inBody [0; 0]%nat)).

(** A detail page with a meaning and an example header numbered from
    zero. *)
Definition contohZeroPage : Doc :=
  page
  [el "div" [("class", "page-header")%string] [el "h2" [] [tx "Detail Data"]];
   row "Entri" "cinta"; row "Makna" "suka sekali";
   el "h4" [] [tx "Contoh #0-1"]].

(** A cookies file with two saved cookies. *)
Definition twoCookies : Auth.Fs :=
  {| Auth.file := Auth.Saved [js "AAAAAAAAAAAA-first"; js "BBBB"];
     Auth.writable := true |}.

End MoreFixtures.

(** * Properties *)

Import Fixtures.

(** ** The scenarios of the specification, run on the model *)

(** Scenario A: a heading and one list item with a class marker. *)
Example scenario_A :
  getMakna <$> parseEntryDirectly noEtymology searchPage (inBody [0; 0]%nat)
  = Some (Some [mkMeaning (StrNomor (js "1"))
                  [{| kode := js "a"; nama := js "Adjektiva" |}]
                  (js "suka sekali") [] None]).
Proof. by vm_compute. Qed.

(** Scenario B: the rows of a detail page. *)
Example scenario_B :
  parseDetailsPage detailPage
  = Returned (Some
      (<["id" := VStr (js "123")]>
       (<["nama" := VStr (js "cinta")]>
        (<["makna" := VMakna [mkMeaning NoNomor
                                [{| kode := js "a"; nama := js "Adjektiva" |}]
                                (js "suka sekali") [] None]]> ∅)))).
Proof. by vm_compute. Qed.

(** Scenario C: two stubs, the second detail fetch fails; two items are
    returned and the second is the stub. *)
Example scenario_C :
  length (entries twoStubsResult) = 2%nat
  /\ entries twoStubsResult !! 1%nat = stubsOf searchPageTwo !! 1%nat.
Proof. split; by vm_compute. Qed.

(** Scenario D: the not-found text and two suggestions. *)
Example scenario_D :
  parseEntries noEtymology notFoundPage
  = Returned {| prEntries := []; prMirip := Some [js "cita"; js "cinta"] |}.
Proof. by vm_compute. Qed.

(** ** Strings and extractors *)

Lemma digitsAfter_nonempty (p s d : list N) :
  digitsAfter p s = Some d -> d <> [].
Proof.
  induction s as [|c s IH]; simpl.
  - destruct (startsWith p [] && _) eqn:E; [|discriminate].
    intros [= <-]. apply andb_true_iff in E as [_ E].
    destruct (takeWhile isDigit (drop (length p) [])); [discriminate|done].
  - destruct (startsWith p (c :: s) && _) eqn:E; [|exact IH].
    intros [= <-]. apply andb_true_iff in E as [_ E].
    destruct (takeWhile isDigit (drop (length p) (c :: s))); [discriminate|done].
Qed.

Lemma extractId_nonempty (doc : Doc) (h2 : list Path) (d : list N) :
  extractId doc h2 = Some d -> d <> [].
Proof.
  unfold extractId, idFromLinks.
  repeat match goal with
         | |- context [match attr ?a ?b ?c with _ => _ end] =>
             destruct (attr a b c)
         | |- context [match digitsAfter ?a ?b with _ => _ end] =>
             destruct (digitsAfter a b) eqn:?
         end;
    intros [= <-] || intros H; try discriminate;
    eauto using digitsAfter_nonempty.
Qed.

Lemma extractDefinition_nonempty (doc : Doc) (li : Path) :
  extractDefinition doc li <> [].
Proof.
  unfold extractDefinition.
  destruct (cleanDefinition _) eqn:E; simpl; [|done].
  by vm_compute.
Qed.

(** ** Page classification *)

(** A page with the detail marker, no entry heading and the not-found text
    is parsed as not found, although the detail path would have produced
    its entry. *)
Lemma detail_marker_not_first :
  select detailPageWithNotFoundText selDetailMarker <> []
  /\ parseDetailsPage detailPageWithNotFoundText
     = Returned (Some {[ "id" := VStr (js "123") ]})
  /\ parseEntries noEtymology detailPageWithNotFoundText
     = Returned {| prEntries := []; prMirip := Some [] |}
  /\ parseEntries noEtymology detailPageWithNotFoundText
     <> parseEntriesPerSpec noEtymology detailPageWithNotFoundText.
Proof.
  split; [by vm_compute|].
  split; [by vm_compute|].
  split; [by vm_compute|].
  by vm_compute.
Qed.

(** C2 (as the code has it): a page with no entry heading and the
    not-found text is NotFound, whatever else it contains; only otherwise
    does the detail marker make it an EntryDetail page; every other page is
    SearchResults. The order of the specification gives the same result on
    every page that does not combine the detail marker with the not-found
    test. *)
Theorem parseEntries_classification (et : Doc -> option Etymology) (doc : Doc) :
  let notFound :=
    isEmpty (select doc selEntryHeading)
    && negb (isEmpty (select doc selNotFound)) in
  let detail := negb (isEmpty (select doc selDetailMarker)) in
  (notFound = true ->
   parseEntries et doc
   = Returned {| prEntries := []; prMirip := Some (parseMirip doc) |})
  /\ (notFound = false -> detail = true ->
      parseEntries et doc
      = bindO (parseDetailsPage doc) (fun entry =>
          Returned {| prEntries := option_list entry; prMirip := None |}))
  /\ (notFound = false -> detail = false ->
      parseEntries et doc
      = Returned {| prEntries :=
                      omap (parseEntryDirectly et doc)
                        (select doc selEntryHeading);
                    prMirip := None |})
  /\ (notFound && detail = false ->
      parseEntries et doc = parseEntriesPerSpec et doc).
Proof.
  intros notFound detail. unfold parseEntries, parseEntriesPerSpec.
  fold notFound. fold detail.
  repeat split.
  - by intros ->.
  - by intros -> ->.
  - by intros -> ->.
  - destruct notFound, detail; simpl; done.
Qed.

Lemma parseEntries_classification_witness :
  parseEntries noEtymology detailPage
  = bindO (parseDetailsPage detailPage) (fun entry =>
      Returned {| prEntries := option_list entry; prMirip := None |}).
Proof.
  apply (parseEntries_classification noEtymology detailPage); by vm_compute.
Defined.

(** ** The detail page: when nothing is populated *)

Section DetailsPage.

Implicit Types (result r : Entry) (doc : Doc).

Lemma getMakna_empty : getMakna ∅ = None.
Proof. unfold getMakna. by rewrite lookup_empty. Qed.

Lemma updateLastMakna_empty f : updateLastMakna f ∅ = ∅.
Proof. unfold updateLastMakna. by rewrite getMakna_empty. Qed.

Lemma updateLastMakna_nonempty f r : r <> ∅ -> updateLastMakna f r <> ∅.
Proof.
  intros Hr. unfold updateLastMakna.
  destruct (getMakna r) as [[|m ms]|]; try done. apply insert_non_empty.
Qed.

Ltac caseLabels :=
  repeat match goal with
         | |- context [if eqb ?a ?b then _ else _] => destruct (eqb a b)
         | |- context [eqb ?a ?b || _] => destruct (eqb a b)
         end.

Lemma applyRow_nonempty label value r :
  r <> ∅ -> applyRow label value r <> ∅.
Proof.
  intros Hr. unfold applyRow.
  destruct (isEmpty value || eqb value placeholder); [done|].
  caseLabels;
    first [apply insert_non_empty | by apply updateLastMakna_nonempty | done].
Qed.

Lemma applyRow_empty label value :
  applyRow label value ∅ = ∅ <-> rowPopulates label value = false.
Proof.
  unfold applyRow, rowPopulates.
  destruct (isEmpty value || eqb value placeholder); simpl; [done|].
  destruct (eqb label (js "Eid"));
    [split; [intros H; by apply insert_non_empty in H|done]|].
  destruct (eqb label (js "Entri"));
    [split; [intros H; by apply insert_non_empty in H|done]|].
  destruct (eqb label (js "Id Homonim"));
    [split; [intros H; by apply insert_non_empty in H|done]|].
  destruct (eqb label (js "Jenis Entri"));
    [split; [intros H; by apply insert_non_empty in H|done]|].
  destruct (eqb label (js "Induk Kata"));
    [split; [intros H; by apply insert_non_empty in H|done]|].
  destruct (eqb label (js "Makna"));
    [split; [intros H; by apply insert_non_empty in H|done]|].
  simpl. rewrite !updateLastMakna_empty.
  by destruct (eqb label (js "Kelas Kata")), (eqb label (js "Contoh")).
Qed.

Lemma applyRows_nonempty doc rows r :
  r <> ∅ -> applyRows doc rows r <> ∅.
Proof.
  revert r. induction rows as [|row rows IH]; intros r Hr; [done|].
  apply IH. by apply applyRow_nonempty.
Qed.

Lemma applyRows_empty doc rows :
  applyRows doc rows ∅ = ∅
  <-> Forall (fun row => rowPopulates (rowLabel doc row) (rowValue doc row) = false)
        rows.
Proof.
  induction rows as [|row rows IH]; [by split|].
  unfold applyRows in *. simpl. rewrite Forall_cons.
  destruct (rowPopulates (rowLabel doc row) (rowValue doc row)) eqn:Hp.
  - split; [|by intros [? _]].
    intros H. exfalso. revert H.
    apply (applyRows_nonempty doc rows).
    intros He. apply applyRow_empty in He. congruence.
  - apply applyRow_empty in Hp. rewrite Hp. rewrite IH. tauto.
Qed.

Lemma applyContohHeader_empty doc h4 :
  applyContohHeader doc h4 ∅ = Returned ∅.
Proof.
  unfold applyContohHeader. rewrite getMakna_empty.
  by destruct (matchContohHeader _) as [[? ?]|].
Qed.

Lemma applyContohHeader_nonempty doc h4 r r' :
  r <> ∅ -> applyContohHeader doc h4 r = Returned r' -> r' <> ∅.
Proof.
  intros Hr. unfold applyContohHeader.
  destruct (matchContohHeader _) as [[meaningNum exampleNum]|];
    [|by intros [= <-]].
  destruct (getMakna r) as [ms|]; [|by intros [= <-]].
  destruct (_ <? _)%nat; [by intros [= <-]|].
  destruct meaningNum; [discriminate|].
  destruct (negb _ && _); intros [= <-]; [apply insert_non_empty|done].
Qed.

Lemma applyContohHeaders_empty doc hs :
  applyContohHeaders doc hs ∅ = Returned ∅.
Proof.
  induction hs as [|h hs IH]; [done|].
  simpl. by rewrite applyContohHeader_empty.
Qed.

Lemma applyContohHeaders_nonempty doc hs r r' :
  r <> ∅ -> applyContohHeaders doc hs r = Returned r' -> r' <> ∅.
Proof.
  revert r. induction hs as [|h hs IH]; intros r Hr; simpl.
  - by intros [= <-].
  - destruct (applyContohHeader doc h r) as [r1|e] eqn:E; [|discriminate].
    simpl. apply IH. by eapply applyContohHeader_nonempty.
Qed.

Lemma rootWordFallback_empty doc r :
  rootWordFallback doc r = ∅ <-> r = ∅ /\ titleRootWord doc = None.
Proof.
  unfold rootWordFallback.
  destruct (truthy (r !! "rootWord")) eqn:Ht.
  - split; [|tauto]. intros ->. by rewrite lookup_empty in Ht.
  - destruct (titleRootWord doc).
    + split; [intros H; by apply insert_non_empty in H|by intros [_ ?]].
    + tauto.
Qed.

Lemma compoundFallback_empty doc : compoundFallback doc ∅ = Returned ∅.
Proof. unfold compoundFallback, isCompoundName. by rewrite lookup_empty. Qed.

Lemma compoundFallback_nonempty doc r r' :
  r <> ∅ -> compoundFallback doc r = Returned r' -> r' <> ∅.
Proof.
  intros Hr. unfold compoundFallback.
  destruct (_ && _); [|by intros [= <-]].
  destruct (extractCompoundWordMeanings _ _) as [[|m ms]|e]; simpl;
    [by intros [= <-]| |discriminate].
  intros [= <-]. apply insert_non_empty.
Qed.

Lemma size_zero_iff r : (0 <? size r)%nat = false <-> r = ∅.
Proof. rewrite Nat.ltb_ge, <- map_size_empty_iff. lia. Qed.

(** C6: [parseDetailsPage] returns [null] exactly when no row populates a
    field and the title offers no root word, that is when no recognised
    field could be populated; and an entry it returns is never the empty
    object. *)
Theorem parseDetailsPage_null_iff_unpopulated doc :
  (parseDetailsPage doc = Returned None
   <-> Forall (fun row =>
                 rowPopulates (rowLabel doc row) (rowValue doc row) = false)
         (select doc (selClass "row"))
       /\ titleRootWord doc = None)
  /\ (forall e : Entry, parseDetailsPage doc = Returned (Some e) -> e <> ∅).
Proof.
  unfold parseDetailsPage.
  set (r0 := applyRows doc (select doc (selClass "row")) ∅).
  assert (Hfinal : forall r : Entry,
             Returned (if (0 <? size r)%nat then Some r else None)
             = Returned (@None Entry) <-> r = ∅).
  { intros r. rewrite <- size_zero_iff.
    destruct (0 <? size r)%nat; split; (done || discriminate). }
  split; [split|].
  - (* returned null: trace the empty object back to the rows *)
    destruct (applyContohHeaders doc (contohHeaders doc) r0) as [r1|e] eqn:E1;
      simpl; [|discriminate].
    destruct (compoundFallback doc (rootWordFallback doc r1)) as [r2|e] eqn:E2;
      simpl; [|discriminate].
    intros H. apply Hfinal in H. subst r2.
    destruct (decide (rootWordFallback doc r1 = ∅)) as [Hrw|Hrw];
      [|exfalso; by eapply compoundFallback_nonempty].
    apply rootWordFallback_empty in Hrw as [-> Htitle].
    destruct (decide (r0 = ∅)) as [Hr0|Hr0];
      [|exfalso; by eapply applyContohHeaders_nonempty].
    split; [|done]. by apply applyRows_empty.
  - intros [Hrows Htitle]. apply applyRows_empty in Hrows.
    fold r0 in Hrows. rewrite Hrows, applyContohHeaders_empty. simpl.
    assert (rootWordFallback doc ∅ = ∅) as ->
      by by apply rootWordFallback_empty.
    rewrite compoundFallback_empty. simpl. by apply Hfinal.
  - intros e.
    destruct (applyContohHeaders doc (contohHeaders doc) r0) as [r1|?];
      simpl; [|discriminate].
    destruct (compoundFallback doc (rootWordFallback doc r1)) as [r2|?];
      simpl; [|discriminate].
    destruct (0 <? size r2)%nat eqn:Hs; [|discriminate].
    intros [= <-] ->. by rewrite map_size_empty in Hs.
Qed.

End DetailsPage.

Lemma parseDetailsPage_null_iff_unpopulated_witness :
  parseDetailsPage blankPage = Returned None.
Proof.
  apply (parseDetailsPage_null_iff_unpopulated blankPage).
  split; by vm_compute.
Defined.

(** ** Word classes *)

Section WordClasses.

Implicit Types (doc : Doc) (p li font : Path).














End WordClasses.


(** ** Meanings: numbering and definitions *)

Section Meanings.

Implicit Types (doc : Doc) (li : Path).

Lemma itemMeaning_eq doc i li :
  itemMeaning doc i li
  = if hasMarker doc li then [] else [meaningAt doc i li].
Proof.
  unfold itemMeaning, hasMarker, meaningAt.
  destruct (includes _ _); [done|].
  pose proof (extractDefinition_nonempty doc li) as Hne.
  by destruct (extractDefinition doc li).
Qed.




(** On the list paths and on the compound path a meaning has a
    non-empty [definisi]. *)
Lemma listMeanings_definisi doc (l : Path) (m : Meaning) :
  In m (listMeanings doc l) -> definisi m <> [].
Proof.
  unfold listMeanings. rewrite in_flat_map. intros ([i li] & _ & H).
  rewrite itemMeaning_eq in H. destruct (hasMarker doc li); [done|].
  destruct H as [<-|[]]. apply extractDefinition_nonempty.
Qed.

Lemma compoundItemMeaning_definisi doc (i : nat) li (m : Meaning) :
  In m (compoundItemMeaning doc i li) -> definisi m <> [].
Proof.
  unfold compoundItemMeaning.
  destruct (includes _ _); [done|].
  destruct (match indexOfChar 58 _ with Some _ => _ | None => _ end)
    as [d exs].
  destruct d; [done|]. by intros [<-|[]].
Qed.


Lemma fold_left_invariant {A B : Type} (P : A -> Prop) (f : A -> B -> A)
    (l : list B) (a : A) :
  P a -> (forall a x, P a -> P (f a x)) -> P (fold_left f l a).
Proof. revert a. induction l; simpl; auto. Qed.





End Meanings.


(** C8: a heading followed by the bare class code [n] and no list gives an
    entry whose single meaning has the empty string as its [definisi]: the
    plain-text path strips the code after its emptiness test and has no
    sentinel. *)
Lemma plain_text_definisi_empty :
  getMakna <$> parseEntryDirectly noEtymology bareCodePage (inBody [0; 0]%nat)
  = Some (Some [mkMeaning (StrNomor (js "1"))
                  [{| kode := js "n"; nama := js "Nomina" |}] [] [] None]).
Proof. by vm_compute. Qed.

(** C10: a heading whose text is only a superscript digit passes the
    emptiness test and is stored with the empty string as its [nama]. *)
Lemma superscript_only_nama_empty :
  (fun e : Entry => e !! "nama")
    <$> parseEntryDirectly noEtymology superscriptOnlyPage (inBody [0; 0]%nat)
  = Some (Some (VStr [])).
Proof. by vm_compute. Qed.

(** ** The orchestrator *)

Section OrchestratorProperties.

Context {W : Type}.
Variable world : World W.
Variable options : Options.

Implicit Types (w : W) (entry stub : Entry) (doc : Doc).

Lemma mergeEntry_null entry : mergeEntry entry None = entry.
Proof. unfold mergeEntry. simpl. by rewrite (left_id ∅ (∪)). Qed.

Lemma openAndNavigate_returns url w :
  exists o w', openAndNavigate world url w = (Returned o, w').
Proof.
  unfold openAndNavigate, openBrowser, navigate, bind, lift, effect, ret.
  destruct (launch world w) as [[context page] w1].
  destruct (getCookieString world w1) as [[c|] w2], context, page;
    try destruct (goto world url _) as [o w3]; eauto.
Qed.


Lemma fetchDetail_cases entry id w :
  match openAndNavigate world (DetailsUrl id) w with
  | (Returned None, w1) =>
      fetchDetail world entry id w
      = (Returned entry, sleep world 500 (closeBrowser world w1))
  | (Returned (Some d), w1) =>
      match parseDetailsPage d with
      | Returned details =>
          fetchDetail world entry id w
          = (Returned (mergeEntry entry details),
             sleep world 500 (closeBrowser world w1))
      | Threw e => fetchDetail world entry id w = (Threw e, w1)
      end
  | (Threw e, w1) => fetchDetail world entry id w = (Threw e, w1)
  end.
Proof.
  unfold fetchDetail, bind.
  destruct (openAndNavigate world (DetailsUrl id) w) as [[[d|]|e] w1];
    try done.
  unfold ofOutcome. by destruct (parseDetailsPage d).
Qed.

Lemma fetchDetail_pushed entry id w pushed w' :
  entryId entry = Some id ->
  fetchDetail world entry id w = (Returned pushed, w') ->
  pushedFor world entry pushed.
Proof.
  intros Hid Hf. exists id, w. split; [done|].
  pose proof (fetchDetail_cases entry id w) as H.
  destruct (openAndNavigate world (DetailsUrl id) w) as [[[d|]|e] w1];
    cbn [fst].
  - destruct (parseDetailsPage d) as [[D|]|e]; rewrite H in Hf;
      try discriminate; injection Hf as <- <-; [done|].
    apply mergeEntry_null.
  - rewrite H in Hf. by injection Hf as <- <-.
  - rewrite H in Hf. discriminate.
Qed.

Lemma detailLoop_returns stubs acc w r w' :
  Forall (fun s => is_Some (entryId s)) stubs ->
  detailLoop world stubs acc w = (Returned r, w') ->
  exists new, r = acc ++ new /\ Forall2 (pushedFor world) stubs new.
Proof.
  intros Hids. revert acc w.
  induction Hids as [|entry stubs [id Hid] _ IH]; intros acc w; simpl.
  - intros [= <- <-]. exists []. by rewrite app_nil_r.
  - rewrite Hid. unfold bind at 1.
    destruct (fetchDetail world entry id w) as [[pushed|e] w1] eqn:E;
      [|discriminate].
    intros H. apply IH in H as (new & -> & Hnew).
    exists (pushed :: new). rewrite <- app_assoc. split; [done|].
    constructor; [|done]. by eapply fetchDetail_pushed.
Qed.


Lemma parseEntry_None doc h2 :
  parseEntry doc [h2] = None <-> extractId doc [h2] = None.
Proof. unfold parseEntry. by destruct (extractId doc [h2]). Qed.

Lemma parseEntry_id doc h2 e :
  parseEntry doc h2 = Some e -> is_Some (entryId e).
Proof.
  unfold parseEntry.
  destruct (extractId doc h2) as [i|] eqn:E; [|discriminate].
  intros [= <-]. unfold entryId.
  rewrite !lookup_insert_ne by done. rewrite lookup_insert_eq.
  apply extractId_nonempty in E. destruct i; [done|]. by eexists.
Qed.

Lemma stubsOf_ids doc : Forall (fun s => is_Some (entryId s)) (stubsOf doc).
Proof.
  apply Forall_forall. intros e He. unfold stubsOf in He.
  apply list_elem_of_omap in He as (h2 & _ & He).
  by eapply parseEntry_id.
Qed.

Lemma stubsOf_length doc :
  length (stubsOf doc)
  = length (List.filter (hasId doc) (select doc selEntryHeading)).
Proof.
  unfold stubsOf. generalize (select doc selEntryHeading). intros hs.
  induction hs as [|h hs IH]; [done|].
  cbn [omap list_omap List.filter]. unfold hasId at 1. unfold parseEntry at 1.
  destruct (extractId doc [h]); simpl; by rewrite IH.
Qed.

(** What a returned result is made of. *)
Lemma scrapeWord_returned (w0 : list N) w r :
  fst (scrapeWord world options w0 w) = Returned r ->
  isEmpty w0 = false
  /\ exists doc w1,
      openAndNavigate world (SearchUrl w0) w = (Returned (Some doc), w1)
      /\ word r = w0
      /\ authenticated r = checkAuthentication doc
      /\ mirip r = Some (parseMirip doc)
      /\ Forall2 (pushedFor world) (stubsOf doc) (entries r).
Proof.
  unfold scrapeWord, buildUrl. destruct (isEmpty w0); [discriminate|].
  destruct (isWellFormed w0); [|discriminate].
  split; [done|]. revert H. unfold closingOnThrow, bind at 1.
  destruct (openAndNavigate world (SearchUrl w0) w) as [[[doc|]|e] w1];
    try discriminate.
  unfold bind at 1.
  destruct (passChallenge world options CloudflareChallenge w1)
    as [[[]|e] w2]; [|discriminate].
  unfold bind at 1, effect at 1.
  destruct (stubsOf doc) as [|s ss] eqn:Hs.
  - simpl. intros [= <-]. exists doc, w1. rewrite Hs.
    split; [done|]. repeat (split; [done|]). constructor.
  - unfold bind at 1.
    destruct (detailLoop world (s :: ss) [] (closeBrowser world w2))
      as [[l|e] w3] eqn:El; simpl; [|discriminate].
    intros [= <-]. exists doc, w1. rewrite Hs.
    split; [done|]. repeat (split; [done|]).
    apply detailLoop_returns in El as (new & -> & Hnew); [done|].
    rewrite <- Hs. apply stubsOf_ids.
Qed.



End OrchestratorProperties.

(** ** The merge of a stub and its detail page *)

(** C3: the merged entry takes the detail's [nama] when the detail has that
    key and the stub's otherwise, and the same rule holds for every key of
    the shallow union; this merged entry is what the detail phase pushes
    for a stub whose detail page was fetched and parsed. *)
Theorem merge_detail_wins {W : Type} (world : World W) (S D : Entry) :
  mergeEntry S (Some D) !! "nama"
  = match D !! "nama" with Some v => Some v | None => S !! "nama" end
  /\ (forall k : string,
        mergeEntry S (Some D) !! k
        = match D !! k with Some v => Some v | None => S !! k end)
  /\ (forall id w d w1,
        openAndNavigate world (DetailsUrl id) w = (Returned (Some d), w1) ->
        parseDetailsPage d = Returned (Some D) ->
        fst (fetchDetail world S id w) = Returned (mergeEntry S (Some D))).
Proof.
  split; [|split].
  - unfold mergeEntry; simpl. rewrite lookup_union.
    by destruct (D !! "nama"), (S !! "nama").
  - intros k. unfold mergeEntry; simpl. rewrite lookup_union.
    by destruct (D !! k), (S !! k).
  - intros id w d w1 Hd HD.
    pose proof (fetchDetail_cases world S id w) as H.
    rewrite Hd, HD in H. by rewrite H.
Qed.

Lemma merge_detail_wins_witness :
  fst (fetchDetail (scripted None (fun _ => Some detailPage) false)
         {[ "nama" := VStr (js "cinta ") ]} (js "123") [])
  = Returned (mergeEntry {[ "nama" := VStr (js "cinta ") ]} (Some detailEntry)).
Proof.
  apply (proj2 (proj2
           (merge_detail_wins (scripted None (fun _ => Some detailPage) false)
              {[ "nama" := VStr (js "cinta ") ]} detailEntry))
           (js "123") [] detailPage [DetailsUrl (js "123")]);
    by vm_compute.
Defined.


(** ** Suggestions beside entries *)

Section Suggestions.

Context {W : Type}.
Variable world : World W.
Variable options : Options.
Variable et : Doc -> option Etymology.

Lemma parseEntries_mirip (doc : Doc) (p : ParseResult) (m : list (list N)) :
  parseEntries et doc = Returned p -> prMirip p = Some m -> prEntries p = [].
Proof.
  unfold parseEntries. destruct (_ && _); [by intros [= <-]|].
  destruct (negb _).
  - destruct (parseDetailsPage doc); simpl; [|discriminate].
    intros [= <-]. discriminate.
  - intros [= <-]. discriminate.
Qed.

Lemma lookup_returned (w0 : list N) (w : W) (r : ScrapeResult) :
  fst (lookup world et options w0 w) = Returned r ->
  exists doc p,
    parseEntries et doc = Returned p
    /\ entries r = prEntries p /\ mirip r = prMirip p.
Proof.
  unfold lookup. destruct (isEmpty w0); [discriminate|].
  unfold bind at 1, closingOnThrow, bind at 1.
  destruct (openBrowser world w) as [[page|e] w1]; [|discriminate].
  unfold bind at 1, ofOutcome, buildUrl.
  destruct (isWellFormed w0); [|discriminate].
  unfold bind at 1.
  destruct (navigate world page (SearchUrl w0) w1) as [[[doc|]|e] w2];
    try discriminate.
  unfold bind at 1.
  destruct (passChallenge world options CloudflareBlock w2)
    as [[[]|e] w3]; [|discriminate].
  unfold bind at 1.
  destruct (parseEntries et doc) as [p|e] eqn:E; [|discriminate].
  simpl. intros [= <-]. by exists doc, p.
Qed.

(** This search page has an entry and a side column: [scrapeWord] returns
    one entry together with a non-empty [mirip]. *)
Lemma mirip_beside_entries :
  (fun r => (length (entries r), mirip r))
    <$> returned
          (fst (scrapeWord (scripted (Some searchPage) (fun _ => None) false)
                  headlessOn (js "cinta") []))
  = Some (1%nat, Some [js "cinta kasih"]).
Proof. by vm_compute. Qed.

(** C4 (as the code has it): in a result of [lookup], [mirip] is present
    only when [entries] is empty, and is missing when [entries] is
    non-empty; in a result of [scrapeWord], [mirip] is the list of
    suggestions parsed from the search page, whether or not there are
    entries. *)
Theorem mirip_of_results (w0 : list N) (w : W) :
  (forall r, fst (lookup world et options w0 w) = Returned r ->
     (forall m, mirip r = Some m -> entries r = [])
     /\ (entries r <> [] -> mirip r = None))
  /\ (forall r, fst (scrapeWord world options w0 w) = Returned r ->
        exists doc,
          fst (openAndNavigate world (SearchUrl w0) w) = Returned (Some doc)
          /\ mirip r = Some (parseMirip doc)).
Proof.
  split.
  - intros r Hr. apply lookup_returned in Hr as (doc & p & Hp & -> & ->).
    split; [intros m Hm; exact (parseEntries_mirip doc p m Hp Hm)|].
    intros Hne. destruct (prMirip p) as [m|] eqn:Hm; [|done].
    exfalso. apply Hne. exact (parseEntries_mirip doc p m Hp Hm).
  - intros r Hr. apply scrapeWord_returned in Hr
      as (_ & doc & w1 & Hdoc & _ & _ & Hm & _).
    exists doc. by rewrite Hdoc.
Qed.

End Suggestions.

Lemma mirip_of_results_witness :
  exists doc,
    fst (openAndNavigate (scripted (Some searchPageTwo) onlyFirstDetail false)
           (SearchUrl (js "apel")) [])
    = Returned (Some doc)
    /\ mirip twoStubsResult = Some (parseMirip doc).
Proof.
  apply (mirip_of_results (scripted (Some searchPageTwo) onlyFirstDetail false)
           headlessOn noEtymology (js "apel") []).
  by vm_compute.
Defined.

(** ** Headings without an id *)

Section Ids.

Implicit Types (r : Entry) (doc : Doc).

Lemma idWellFormed_insert_other (k : string) (v : Value) r :
  k <> "id" -> idWellFormed r -> idWellFormed (<[k := v]> r).
Proof. intros Hk. unfold idWellFormed. by rewrite lookup_insert_ne. Qed.

Lemma idWellFormed_updateLastMakna f r :
  idWellFormed r -> idWellFormed (updateLastMakna f r).
Proof.
  intros Hr. unfold updateLastMakna.
  destruct (getMakna r) as [[|m ms]|]; try done.
  by apply idWellFormed_insert_other.
Qed.

Lemma idWellFormed_applyRow label value r :
  idWellFormed r -> idWellFormed (applyRow label value r).
Proof.
  intros Hr. unfold applyRow.
  destruct (isEmpty value || eqb value placeholder) eqn:Hv; [done|].
  destruct (eqb label (js "Eid")).
  { right. exists value. rewrite lookup_insert_eq. split; [done|].
    intros ->. by vm_compute in Hv. }
  repeat match goal with
         | |- context [if eqb ?a ?b then _ else _] => destruct (eqb a b)
         end;
    first [ by apply idWellFormed_insert_other
          | by apply idWellFormed_updateLastMakna
          | done ].
Qed.

Lemma idWellFormed_applyRows doc rows r :
  idWellFormed r -> idWellFormed (applyRows doc rows r).
Proof.
  revert r. induction rows as [|row rows IH]; intros r Hr; [done|].
  apply IH. by apply idWellFormed_applyRow.
Qed.

Lemma idWellFormed_applyContohHeaders doc hs r r' :
  idWellFormed r -> applyContohHeaders doc hs r = Returned r' ->
  idWellFormed r'.
Proof.
  revert r. induction hs as [|h hs IH]; intros r Hr; simpl.
  - by intros [= <-].
  - destruct (applyContohHeader doc h r) as [r1|e] eqn:E; [|discriminate].
    simpl. apply IH. revert E. unfold applyContohHeader.
    destruct (matchContohHeader _) as [[meaningNum exampleNum]|];
      [|by intros [= <-]].
    destruct (getMakna r) as [ms|]; [|by intros [= <-]].
    destruct (_ <? _)%nat; [by intros [= <-]|].
    destruct meaningNum; [discriminate|].
    destruct (negb _ && _); intros [= <-]; [|done].
    by apply idWellFormed_insert_other.
Qed.

Lemma parseDetailsPage_id doc (D : Entry) :
  parseDetailsPage doc = Returned (Some D) -> idWellFormed D.
Proof.
  unfold parseDetailsPage.
  destruct (applyContohHeaders doc _ _) as [r1|e] eqn:E1; simpl;
    [|discriminate].
  assert (H1 : idWellFormed r1).
  { eapply idWellFormed_applyContohHeaders; [|exact E1].
    apply idWellFormed_applyRows. left. apply lookup_empty. }
  assert (H2 : idWellFormed (rootWordFallback doc r1)).
  { unfold rootWordFallback. destruct (truthy _); [done|].
    destruct (titleRootWord doc); [|done].
    by apply idWellFormed_insert_other. }
  destruct (compoundFallback doc (rootWordFallback doc r1)) as [r2|e] eqn:E2;
    simpl; [|discriminate].
  destruct (0 <? size r2)%nat; [|discriminate]. intros [= <-].
  revert E2. unfold compoundFallback. destruct (_ && _); [|by intros [= <-]].
  destruct (extractCompoundWordMeanings _ _) as [[|m ms]|e]; simpl;
    [by intros [= <-]| |discriminate].
  intros [= <-]. by apply idWellFormed_insert_other.
Qed.

Lemma entryId_merged (stub D : Entry) :
  is_Some (entryId stub) -> idWellFormed D ->
  is_Some (entryId (mergeEntry stub (Some D))).
Proof.
  intros Hs HD. unfold entryId, mergeEntry in *. simpl.
  rewrite lookup_union. destruct HD as [->|(s & -> & Hne)].
  - by rewrite (left_id None _).
  - destruct (stub !! "id"); simpl; destruct s; by eauto.
Qed.

End Ids.

Section NullIds.

Context {W : Type}.
Variable world : World W.
Variable options : Options.

Lemma fetchDetail_id (entry : Entry) id (w : W) pushed w' :
  is_Some (entryId entry) ->
  fetchDetail world entry id w = (Returned pushed, w') ->
  is_Some (entryId pushed).
Proof.
  intros Hid. pose proof (fetchDetail_cases world entry id w) as H.
  destruct (openAndNavigate world (DetailsUrl id) w) as [[[d|]|e] w1].
  - destruct (parseDetailsPage d) as [[D|]|e] eqn:Ed; rewrite H;
      intros [= <- <-].
    + apply entryId_merged; [done|]. by eapply parseDetailsPage_id.
    + by rewrite mergeEntry_null.
  - rewrite H. by intros [= <- <-].
  - rewrite H. discriminate.
Qed.

Lemma detailLoop_ids stubs acc (w : W) r w' :
  Forall (fun s => is_Some (entryId s)) stubs ->
  Forall (fun s => is_Some (entryId s)) acc ->
  detailLoop world stubs acc w = (Returned r, w') ->
  Forall (fun s => is_Some (entryId s)) r.
Proof.
  intros Hids. revert acc w.
  induction Hids as [|entry stubs Hentry _ IH]; intros acc w Hacc; simpl.
  - by intros [= <- <-].
  - destruct Hentry as [id Hid]. rewrite Hid. unfold bind at 1.
    destruct (fetchDetail world entry id w) as [[pushed|e] w1] eqn:E;
      [|discriminate].
    apply IH. apply Forall_app. split; [done|].
    constructor; [|done]. eapply fetchDetail_id; [|exact E]. by exists id.
Qed.

(** The only heading of this search page has no id: no stub is made of it
    and the result has no entry. *)
Lemma heading_without_id_is_dropped :
  select searchPageNoId selEntryHeading = [inBody [0; 0]%nat]
  /\ extractId searchPageNoId [inBody [0; 0]%nat] = None
  /\ entries
       <$> returned
             (fst (scrapeWord
                     (scripted (Some searchPageNoId) (fun _ => None) false)
                     headlessOn (js "cinta") []))
     = Some [].
Proof. repeat split; by vm_compute. Qed.

(** C5 (as the code has it): a heading whose extracted id is null yields no
    stub; the result of the orchestrator holds one item for each heading
    with an id and none for the others, and every item of it has a
    non-empty id. *)
Theorem null_id_headings_dropped (w0 : list N) (w : W) :
  (forall doc h2, extractId doc [h2] = None -> parseEntry doc [h2] = None)
  /\ (forall r,
        fst (scrapeWord world options w0 w) = Returned r ->
        exists doc,
          fst (openAndNavigate world (SearchUrl w0) w) = Returned (Some doc)
          /\ length (entries r)
             = length (List.filter (hasId doc) (select doc selEntryHeading))
          /\ Forall (fun e => is_Some (entryId e)) (entries r)).
Proof.
  split; [intros doc h2; apply parseEntry_None|].
  intros r Hr.
  destruct (scrapeWord_returned world options w0 w r Hr)
    as (_ & doc & w1 & Hdoc & _ & _ & _ & Hall).
  exists doc. rewrite Hdoc. split; [done|]. split.
  - rewrite <- stubsOf_length. symmetry. by eapply Forall2_length.
  - revert Hr. unfold scrapeWord, buildUrl.
    destruct (isEmpty w0); [discriminate|].
    destruct (isWellFormed w0); [|discriminate].
    unfold closingOnThrow, bind at 1. rewrite Hdoc. unfold bind at 1.
    destruct (passChallenge world options CloudflareChallenge w1)
      as [[[]|e] w2]; [|discriminate].
    unfold bind at 1, effect at 1.
    destruct (stubsOf doc) as [|s ss] eqn:Hs; [by intros [= <-]|].
    unfold bind at 1.
    destruct (detailLoop world (s :: ss) [] (closeBrowser world w2))
      as [[l|e] w3] eqn:El; simpl; [|discriminate].
    intros [= <-]. simpl. eapply detailLoop_ids; [| |exact El]; [|done].
    rewrite <- Hs. apply stubsOf_ids.
Qed.

End NullIds.

Lemma null_id_headings_dropped_witness :
  exists doc,
    fst (openAndNavigate (scripted (Some searchPageTwo) onlyFirstDetail false)
           (SearchUrl (js "apel")) [])
    = Returned (Some doc)
    /\ length (entries twoStubsResult)
       = length (List.filter (hasId doc) (select doc selEntryHeading))
    /\ Forall (fun e => is_Some (entryId e)) (entries twoStubsResult).
Proof.
  apply (null_id_headings_dropped
           (scripted (Some searchPageTwo) onlyFirstDetail false)
           headlessOn (js "apel") []).
  by vm_compute.
Defined.

(** * Further properties of the parser, the orchestrators and the helpers *)

Import MoreFixtures.

(** ** Strings *)

Section StringFacts.

Implicit Types (s t : list N) (p : N -> bool).

Lemma dropWhile_head p s : headIs p (dropWhile p s) = false.
Proof.
  induction s as [|c s IH]; [done|]. simpl.
  destruct (p c) eqn:E; [done|]. simpl. by rewrite E.
Qed.

Lemma dropWhile_app_stop p s c t :
  p c = false -> dropWhile p (s ++ c :: t) = dropWhile p s ++ c :: t.
Proof.
  intros Hc. induction s as [|x s IH]; simpl; [by rewrite Hc|].
  by destruct (p x).
Qed.

Lemma takeWhile_all p s : forallb p (takeWhile p s) = true.
Proof.
  induction s as [|c s IH]; [done|]. simpl.
  destruct (p c) eqn:E; [|done]. simpl. by rewrite E.
Qed.

Lemma takeWhile_app_stop p s c t :
  forallb p s = true -> p c = false -> takeWhile p (s ++ c :: t) = s.
Proof.
  intros Hs Hc. induction s as [|x s IH]; simpl; [by rewrite Hc|].
  simpl in Hs. apply andb_true_iff in Hs as [-> Hs]. by rewrite IH.
Qed.

Lemma trim_trimmed s : trimmed (trim s).
Proof.
  unfold trimmed, trim, trimEnd, trimStart. split.
  - pose proof (dropWhile_head isSpace s) as Hh.
    destruct (dropWhile isSpace s) as [|c a]; [done|].
    simpl in Hh. change (rev (c :: a)) with (rev a ++ [c]).
    rewrite dropWhile_app_stop by done.
    by rewrite rev_app_distr.
  - rewrite rev_involutive. apply dropWhile_head.
Qed.

Lemma trimmed_nil : trimmed [].
Proof. by split. Qed.

Lemma digitsAfter_digits (pat s d : list N) :
  digitsAfter pat s = Some d -> forallb isDigit d = true.
Proof.
  induction s as [|c s IH]; simpl.
  - destruct (startsWith pat [] && _); [|discriminate].
    intros [= <-]. apply takeWhile_all.
  - destruct (startsWith pat (c :: s) && _); [|exact IH].
    intros [= <-]. apply takeWhile_all.
Qed.

End StringFacts.

(** ** The stub of a heading *)

(** X1: the stub [parseEntry] makes of a heading has the four keys; its
    [id] is a non-empty string of decimal digits, and its [nama] and
    [nomor] carry no white space at either end. *)
Theorem parseEntry_fields (doc : Doc) (h2 : list Path) (e : Entry) :
  parseEntry doc h2 = Some e ->
  exists nama nomor id,
    e !! "nama" = Some (VStr nama) /\ trimmed nama
    /\ e !! "nomor" = Some (VStr nomor) /\ trimmed nomor
    /\ e !! "id" = Some (VStr id) /\ id <> [] /\ forallb isDigit id = true
    /\ e !! "rootWord" = Some (nullable (extractRootWord doc h2))
    /\ dom e = {[ "nama"; "nomor"; "id"; "rootWord" ]}.
Proof.
  unfold parseEntry.
  destruct (extractId doc h2) as [i|] eqn:E; [|discriminate].
  intros [= <-].
  exists (extractText doc h2), (extractNumber doc h2), i.
  split; [by rewrite lookup_insert_eq|].
  split; [unfold extractText; destruct (find doc h2 _); apply trim_trimmed|].
  split; [rewrite lookup_insert_ne by done; by rewrite lookup_insert_eq|].
  split.
  { unfold extractNumber. destruct (find doc h2 _);
      [apply trimmed_nil|apply trim_trimmed]. }
  split; [rewrite !lookup_insert_ne by done; by rewrite lookup_insert_eq|].
  split; [by eapply extractId_nonempty|].
  split.
  { revert E. unfold extractId, idFromLinks.
    repeat match goal with
           | |- context [match attr ?a ?b ?c with _ => _ end] =>
               destruct (attr a b c)
           | |- context [match digitsAfter ?a ?b with _ => _ end] =>
               destruct (digitsAfter a b) eqn:?
           end;
      intros [= <-] || intros H; try discriminate;
      eauto using digitsAfter_digits. }
  split; [rewrite !lookup_insert_ne by done; by rewrite lookup_insert_eq|].
  rewrite !dom_insert_L, dom_empty_L. set_solver.
Qed.

Lemma parseEntry_fields_witness :
  exists nama nomor id,
    twoStubsFirst !! "nama" = Some (VStr nama) /\ trimmed nama
    /\ twoStubsFirst !! "nomor" = Some (VStr nomor) /\ trimmed nomor
    /\ twoStubsFirst !! "id" = Some (VStr id) /\ id <> []
    /\ forallb isDigit id = true
    /\ twoStubsFirst !! "rootWord"
       = Some (nullable (extractRootWord searchPageTwo [inBody [0; 0]%nat]))
    /\ dom twoStubsFirst = {[ "nama"; "nomor"; "id"; "rootWord" ]}.
Proof.
  apply (parseEntry_fields searchPageTwo [inBody [0; 0]%nat] twoStubsFirst).
  by vm_compute.
Defined.

(** ** Definitions *)

Section DefinitionText.

Implicit Types (s : list N).

Lemma singleSpaced_cons c s :
  singleSpaced (c :: s)
  = (negb (isSpace c) || ((c =? 32) && negb (headIs isSpace s)))
    && singleSpaced s.
Proof. reflexivity. Qed.

Lemma singleSpaced_tail c s : singleSpaced (c :: s) = true -> singleSpaced s = true.
Proof. simpl. rewrite andb_true_iff. tauto. Qed.

Lemma singleSpaced_dropWhile p s :
  singleSpaced s = true -> singleSpaced (dropWhile p s) = true.
Proof.
  induction s as [|c s IH]; [done|]. intros H. simpl.
  destruct (p c); [|done]. apply IH. by eapply singleSpaced_tail.
Qed.

Lemma collapseWsAux_singleSpaced (b : bool) s :
  singleSpaced (collapseWsAux b s) = true
  /\ (b = true -> headIs isSpace (collapseWsAux b s) = false).
Proof.
  revert b. induction s as [|x s IH]; intros b; [done|]. simpl.
  destruct (isSpace x) eqn:Hx.
  - destruct b; [apply IH|].
    destruct (IH true) as [H1 H2]. split; [|done].
    simpl. rewrite H1, (H2 eq_refl). done.
  - destruct (IH false) as [H1 _]. split.
    + simpl. by rewrite Hx, H1.
    + intros _. simpl. exact Hx.
Qed.

Lemma stripTrailingSep_head s :
  headIs isSpace (stripTrailingSep s) = true -> headIs isSpace s = true.
Proof.
  destruct s as [|c s]; simpl; [by destruct (atTrailingSep [])|].
  by destruct (atTrailingSep (c :: s)).
Qed.

Lemma singleSpaced_stripTrailingSep s :
  singleSpaced s = true -> singleSpaced (stripTrailingSep s) = true.
Proof.
  induction s as [|c s IH]; simpl; [by destruct (atTrailingSep [])|].
  destruct (atTrailingSep (c :: s)); [done|].
  rewrite !singleSpaced_cons, !andb_true_iff.
  intros [Hc Hs]. split; [|by apply IH].
  destruct (isSpace c); [|done]. simpl in *.
  apply andb_true_iff in Hc as [-> Hc]. simpl.
  destruct (headIs isSpace (stripTrailingSep s)) eqn:E; [|done].
  apply stripTrailingSep_head in E. by rewrite E in Hc.
Qed.

Lemma singleSpaced_cleanDefinition s : singleSpaced (cleanDefinition s) = true.
Proof.
  unfold cleanDefinition, stripLeadingDashes.
  apply singleSpaced_dropWhile, singleSpaced_stripTrailingSep.
  unfold stripLeadingColon, trimStart.
  pose proof (proj1 (collapseWsAux_singleSpaced false (trim s))) as Hc.
  fold (collapseWs (trim s)) in Hc.
  pose proof (singleSpaced_dropWhile isSpace _ Hc) as Hd.
  destruct (dropWhile isSpace (collapseWs (trim s))) as [|c t]; [done|].
  destruct (c =? 58); [|done].
  apply singleSpaced_dropWhile. by eapply singleSpaced_tail.
Qed.

(** X2: the definition [extractDefinition] returns is never empty, does
    not begin with white space, a dash or a bullet, and has its white
    space normalised: every white-space character in it is a single plain
    space. *)
Theorem extractDefinition_normalised (doc : Doc) (li : Path) :
  extractDefinition doc li <> []
  /\ headIs isDashOrSpace (extractDefinition doc li) = false
  /\ singleSpaced (extractDefinition doc li) = true.
Proof.
  unfold extractDefinition.
  set (t := match getNodeIn doc li with Some n => _ | None => _ end).
  pose proof (singleSpaced_cleanDefinition t) as Hs.
  assert (Hh : headIs isDashOrSpace (cleanDefinition t) = false)
    by apply dropWhile_head.
  destruct (cleanDefinition t) as [|c d]; simpl; [by vm_compute|done].
Qed.

End DefinitionText.

(** ** Superscripts and names *)

Section Superscripts.

Implicit Types (s name d : list N).

Lemma stripSuperscripts_clean s :
  forallb (fun c => negb (isSuperscriptDigit c)) (stripSuperscripts s) = true.
Proof.
  induction s as [|c s IH]; [done|]. simpl.
  destruct (isSupNotOne c || (c =? 0xB9)) eqn:E; [done|].
  destruct (isSpace c && _); [done|].
  simpl. rewrite IH, andb_true_r. unfold isSuperscriptDigit. by rewrite E.
Qed.

Lemma superscriptOf_digit (c : N) :
  isDigit c = true -> isSuperscriptDigit (superscriptOf c) = true.
Proof.
  unfold isDigit. rewrite andb_true_iff, !N.leb_le. intros [H1 H2].
  assert (H : c = 48 \/ c = 49 \/ c = 50 \/ c = 51 \/ c = 52 \/ c = 53
              \/ c = 54 \/ c = 55 \/ c = 56 \/ c = 57) by lia.
  repeat (destruct H as [->|H]; [done|]). by subst.
Qed.

Lemma stripSuperscripts_digits d :
  forallb isDigit d = true -> stripSuperscripts (toSuperscript d) = [].
Proof.
  induction d as [|c d IH]; [done|]. simpl.
  rewrite andb_true_iff. intros [Hc Hd].
  apply superscriptOf_digit in Hc. unfold isSuperscriptDigit in Hc.
  rewrite Hc. by apply IH.
Qed.

Lemma trimStart_reaches name (t : list N) :
  name <> [] -> headIs isSpace (rev name) = false ->
  exists x r, trimStart (name ++ t) = x :: r /\ In x name.
Proof.
  unfold trimStart. induction name as [|x m IH]; [done|]. intros _ Hlast.
  simpl. destruct (isSpace x) eqn:Hx; [|exists x, (m ++ t); by split; [|left]].
  destruct m as [|y m'].
  - simpl in Hlast. congruence.
  - destruct IH as (z & r & Hz & Hin); [done| |].
    + revert Hlast. change (rev (x :: y :: m')) with (rev (y :: m') ++ [x]).
      destruct (rev (y :: m')) eqn:E; [|done].
      by apply (f_equal (@length N)) in E; rewrite length_rev in E.
    + exists z, r. split; [done|by right].
Qed.

(** X3: a name that holds no superscript digit and does not end in white
    space comes back unchanged when the superscript form of a number is
    appended to it and the name pattern of [parseEntryDirectly] is
    applied: [toSuperscript] and the stripping are inverse on homonym
    numbers. *)
Theorem superscript_round_trip name d :
  forallb (fun c => negb (isSuperscriptDigit c)) name = true ->
  headIs isSpace (rev name) = false ->
  forallb isDigit d = true ->
  stripSuperscripts (name ++ toSuperscript d) = name.
Proof.
  intros Hname Hlast Hd. induction name as [|c n IH].
  - by apply stripSuperscripts_digits.
  - simpl in Hname. apply andb_true_iff in Hname as [Hc Hn].
    assert (Hlast' : headIs isSpace (rev n) = false).
    { destruct n as [|y n']; [done|]. revert Hlast.
      change (rev (c :: y :: n')) with (rev (y :: n') ++ [c]).
      destruct (rev (y :: n')) eqn:E; [|done].
      by apply (f_equal (@length N)) in E; rewrite length_rev in E. }
    simpl. unfold isSuperscriptDigit in Hc.
    apply negb_true_iff in Hc. rewrite Hc.
    assert (Hnot : isSpace c && headIs (N.eqb 185) (trimStart (n ++ toSuperscript d))
                   = false).
    { destruct (isSpace c) eqn:Hs; [|done]. simpl.
      destruct n as [|y n']; [simpl in Hlast; congruence|].
      destruct (trimStart_reaches (y :: n') (toSuperscript d))
        as (x & r & -> & Hin); [done|done|].
      change ((185 =? x) = false).
      rewrite forallb_forall in Hn. specialize (Hn x Hin).
      unfold isSuperscriptDigit in Hn. apply negb_true_iff in Hn.
      apply orb_false_iff in Hn as [_ Hn]. by rewrite N.eqb_sym. }
    rewrite Hnot. f_equal. by apply IH.
Qed.

Lemma superscript_round_trip_witness :
  stripSuperscripts (js "kata" ++ toSuperscript (js "12")) = js "kata".
Proof. apply superscript_round_trip; by vm_compute. Defined.

End Superscripts.


(** ** Entries read off the search page *)

Section DirectEntries.

Variable et : Doc -> option Etymology.

Lemma setIfTruthy_ne (k k' : string) x (e : Entry) :
  k <> k' -> setIfTruthy k x e !! k' = e !! k'.
Proof.
  intros Hk. unfold setIfTruthy. destruct x as [s|]; [|done].
  destruct (isEmpty s); [done|]. by rewrite lookup_insert_ne.
Qed.

Lemma setIfTruthy_eq (k : string) x (e : Entry) v :
  setIfTruthy k x e !! k = Some v ->
  e !! k = Some v \/ exists s, v = VStr s /\ s <> [].
Proof.
  unfold setIfTruthy. destruct x as [[|c s]|]; simpl; auto.
  rewrite lookup_insert_eq. intros [= <-]. right. by eexists.
Qed.

Lemma dom_setIfTruthy (k : string) x (e : Entry) :
  dom (setIfTruthy k x e) ⊆ {[ k ]} ∪ dom e.
Proof.
  unfold setIfTruthy. destruct x as [s|]; [|set_solver].
  destruct (isEmpty s); [set_solver|]. rewrite dom_insert. set_solver.
Qed.

(** The steps by which [parseEntryDirectly] builds its entry. *)
Lemma parseEntryDirectly_steps (doc : Doc) (h2 : Path) (e : Entry) :
  parseEntryDirectly et doc h2 = Some e ->
  exists e2 e3 e4 : Entry,
    e2 = setIfTruthy "rootWord" (extractRootWord doc [h2])
           (setIfTruthy "jenis" (extractEntryType doc h2)
              (<["id" := nullable (extractId doc [h2])]>
               (<["nama" := VStr (stripSuperscripts (trim (extractText doc [h2])))]>
               (<["nomor" := VStr (extractNumber doc [h2])]>
               (<["makna" := VMakna []]> ∅)))))
    /\ (e3 = e2 \/ exists ms, e3 = <["makna" := VMakna ms]> e2)
    /\ (e4 = e3 \/ exists x, e4 = <["etimologi" := VEtim x]> e3)
    /\ (e = e4 \/ exists r, e = <["terkait" := VTerkait r]> e4).
Proof.
  unfold parseEntryDirectly.
  destruct (isEmpty (trim (extractText doc [h2]))); [done|].
  intros [= <-]. do 3 eexists. split; [reflexivity|].
  split; [|split].
  3: destruct (extractRelated doc h2);
       [right; eexists; reflexivity|left; reflexivity].
  2: destruct (et doc); [right; eexists; reflexivity|left; reflexivity].
  case_match; [|right; by eexists].
  case_match; [by left|right; by eexists].
Qed.

(** X4: an entry [parseEntryDirectly] returns always has [nama], [nomor],
    [id] and [makna]; its [nama] is the heading text with every
    superscript digit removed; [jenis] and [rootWord] are present only as
    non-empty strings; and it has no key besides these six, [etimologi]
    and [terkait]. *)
Theorem parseEntryDirectly_shape (doc : Doc) (h2 : Path) (e : Entry) :
  parseEntryDirectly et doc h2 = Some e ->
  (exists nama,
      e !! "nama" = Some (VStr nama)
      /\ nama = stripSuperscripts (trim (extractText doc [h2]))
      /\ forallb (fun c => negb (isSuperscriptDigit c)) nama = true)
  /\ e !! "nomor" = Some (VStr (extractNumber doc [h2]))
  /\ e !! "id" = Some (nullable (extractId doc [h2]))
  /\ (exists meanings, e !! "makna" = Some (VMakna meanings))
  /\ (forall v, e !! "jenis" = Some v -> exists s, v = VStr s /\ s <> [])
  /\ (forall v, e !! "rootWord" = Some v -> exists s, v = VStr s /\ s <> [])
  /\ dom e ⊆ ({[ "nama"; "nomor"; "id"; "makna"; "jenis"; "rootWord";
                 "etimologi"; "terkait" ]} : gset string).
Proof.
  intros (e2 & e3 & e4 & He2 & He3 & He4 & He)%parseEntryDirectly_steps.
  assert (Hother : forall k : string,
             k <> "makna" -> k <> "etimologi" -> k <> "terkait" ->
             e !! k = e2 !! k).
  { intros k H1 H2 H3.
    destruct He as [->|[r ->]], He4 as [->|[x ->]], He3 as [->|[ms ->]];
      by rewrite ?lookup_insert_ne by done. }
  split; [|split; [|split; [|split; [|split; [|split]]]]].
  - eexists. split; [|split; [reflexivity|apply stripSuperscripts_clean]].
    rewrite Hother, He2 by done. by rewrite !setIfTruthy_ne by done.
  - rewrite Hother, He2 by done. by rewrite !setIfTruthy_ne by done.
  - rewrite Hother, He2 by done. by rewrite !setIfTruthy_ne by done.
  - assert (H2 : exists ms, e2 !! "makna" = Some (VMakna ms)).
    { rewrite He2. rewrite !setIfTruthy_ne by done. by eexists. }
    assert (H3 : exists ms, e3 !! "makna" = Some (VMakna ms)).
    { destruct He3 as [->|[ms ->]]; [done|].
      rewrite lookup_insert_eq. by eexists. }
    destruct He as [->|[r ->]], He4 as [->|[x ->]];
      by rewrite ?lookup_insert_ne by done.
  - intros v. rewrite Hother, He2 by done.
    rewrite setIfTruthy_ne by done. intros [H|H]%setIfTruthy_eq; [|done].
    by rewrite !lookup_insert_ne in H by done.
  - intros v. rewrite Hother, He2 by done.
    intros [H|H]%setIfTruthy_eq; [|done].
    rewrite setIfTruthy_ne in H by done.
    by rewrite !lookup_insert_ne in H by done.
  - assert (H2 : dom e2 ⊆ ({[ "nama"; "nomor"; "id"; "makna"; "jenis";
                              "rootWord" ]} : gset string)).
    { clear He He3 He4 Hother. subst e2.
      etrans; [apply dom_setIfTruthy|].
      apply union_least; [set_unfold; intros; subst; tauto|].
      etrans; [apply dom_setIfTruthy|].
      apply union_least; [set_unfold; intros; subst; tauto|].
      rewrite !dom_insert, dom_empty. set_unfold. tauto. }
    clear Hother He2.
    destruct He as [->|[r ->]], He4 as [->|[x ->]], He3 as [->|[ms ->]];
      rewrite ?dom_insert; set_unfold; intros k Hk;
      repeat (destruct Hk as [Hk|Hk]; [tauto|]);
      specialize (H2 k Hk); tauto.
Qed.

End DirectEntries.

Lemma parseEntryDirectly_shape_witness :
  directEntry !! "nomor" = Some (VStr (extractNumber searchPage [inBody [0; 0]%nat])).
Proof.
  apply (parseEntryDirectly_shape noEtymology searchPage (inBody [0; 0]%nat)).
  by vm_compute.
Defined.


(** ** Examples, related words and suggestions *)

Section Collections.

Implicit Types (doc : Doc) (t : list N).

Lemma isEmpty_false {A : Type} (l : list A) : isEmpty l = false -> l <> [].
Proof. by destruct l. Qed.




Lemma relatedGet_push (k k' : RelatedKind) t (r : Related) :
  relatedGet k' (relatedPush k t r) = relatedGet k' r
  \/ (k = k' /\ relatedGet k' (relatedPush k t r) = relatedGet k r ++ [t]).
Proof. destruct k, k'; simpl; auto. Qed.

(** X6: in what [extractRelated] returns, each of the four lists is free
    of duplicates and holds only non-empty texts with no white space at
    either end; and at least one of the lists is non-empty. *)
Theorem extractRelated_lists doc (h2 : Path) (related : Related) :
  extractRelated doc h2 = Some related ->
  (forall k, NoDup (relatedGet k related)
             /\ Forall (fun t => t <> [] /\ trimmed t) (relatedGet k related))
  /\ exists k, relatedGet k related <> [].
Proof.
  unfold extractRelated.
  set (P := fun r : Related =>
              forall k, NoDup (relatedGet k r)
                        /\ Forall (fun t => t <> [] /\ trimmed t) (relatedGet k r)).
  match goal with
  | |- (if _ (kataTurunan ?x) && _ && _ && _ then _ else _) = _ -> _ =>
      set (r := x); assert (Hr : P r)
  end.
  { apply fold_left_invariant.
    - intros k. by destruct k; split; constructor.
    - intros r0 section H0. destruct (relatedType _) as [k|]; [|done].
      apply fold_left_invariant; [done|]. clear r0 H0.
      intros r0 link H0.
      destruct (isEmpty (trim (textAt doc link))) eqn:E; simpl; [done|].
      destruct (existsb _ _) eqn:Ex; simpl; [done|].
      intros k'.
      destruct (relatedGet_push k k' (trim (textAt doc link)) r0)
        as [->|[<- ->]]; [apply H0|].
      destruct (H0 k) as [Hnd Hf]. split.
      + apply NoDup_app. split; [done|]. split; [|apply NoDup_singleton].
        intros x Hx ->%list_elem_of_singleton.
        assert (existsb (eqb (trim (textAt doc link))) (relatedGet k r0) = true);
          [|congruence].
        apply existsb_exists. exists (trim (textAt doc link)).
        split; [by apply list_elem_of_In|].
        unfold eqb. by apply bool_decide_eq_true.
      + apply Forall_app. split; [done|]. constructor; [|done].
        split; [by apply isEmpty_false|apply trim_trimmed]. }
  destruct (isEmpty (kataTurunan r)) eqn:E1; simpl.
  2: { intros [= <-]. split; [done|].
       exists KataTurunan. by apply isEmpty_false. }
  destruct (isEmpty (gabunganKata r)) eqn:E2; simpl.
  2: { intros [= <-]. split; [done|].
       exists GabunganKata. by apply isEmpty_false. }
  destruct (isEmpty (peribahasa r)) eqn:E3; simpl.
  2: { intros [= <-]. split; [done|].
       exists Peribahasa. by apply isEmpty_false. }
  destruct (isEmpty (idiom r)) eqn:E4; simpl; [done|].
  intros [= <-]. split; [done|]. exists Idiom. by apply isEmpty_false.
Qed.

(** X7: every suggestion [parseMirip] returns is a non-empty text with no
    white space at either end. *)
Theorem parseMirip_clean doc :
  Forall (fun t => t <> [] /\ trimmed t) (parseMirip doc).
Proof.
  unfold parseMirip. apply Forall_app.
  split; apply Forall_forall; intros t Ht;
    apply list_elem_of_In, filter_In in Ht as [Hin Hne];
    apply in_map_iff in Hin as (el0 & <- & _);
    (split; [apply isEmpty_false; by destruct (isEmpty _)|apply trim_trimmed]).
Qed.

End Collections.

Lemma extractRelated_lists_witness :
  NoDup (kataTurunan relatedOfPage) /\ length (kataTurunan relatedOfPage) = 2%nat.
Proof.
  split; [|by vm_compute].
  apply (proj1 (extractRelated_lists relatedPage (inBody [0; 0]%nat)
                  relatedOfPage ltac:(by vm_compute)) KataTurunan).
Defined.


(** ** The orchestrators and their browsers *)

Section Browsers.

Context {W : Type}.
Variable world : World W.
Variable options : Options.
Variable et : Doc -> option Etymology.

Implicit Types (w : W) (u : Usage) (s : W * Usage).

Lemma fetchOne_returns (id : list N) w :
  exists r, FetchMultiple.fetchOne world id w
            = (Returned r, snd (openAndNavigate world (DetailsUrl id) w))
            /\ FetchMultiple.entryId r = id.
Proof.
  unfold FetchMultiple.fetchOne, bind.
  destruct (openAndNavigate_returns world (DetailsUrl id) w) as (o & w' & ->).
  simpl. by eexists.
Qed.

Lemma fetchLoop_returns (ids : list (list N)) (acc : list FetchMultiple.Result) w :
  exists rs,
    FetchMultiple.fetchLoop world ids acc w
    = (Returned (acc ++ rs),
       fold_left
         (fun w id =>
            sleep world 500
              (closeBrowser world
                 (snd (openAndNavigate world (DetailsUrl id) w))))
         ids w)
    /\ List.map FetchMultiple.entryId rs = ids.
Proof.
  revert acc w. induction ids as [|id ids IH]; intros acc w; simpl.
  - exists []. by rewrite app_nil_r.
  - destruct (fetchOne_returns id w) as (r & Hr & Hid).
    unfold bind at 1. rewrite Hr. unfold bind, effect.
    destruct (IH (acc ++ [r])
                (sleep world 500
                   (closeBrowser world
                      (snd (openAndNavigate world (DetailsUrl id) w)))))
      as (rs & -> & Hrs).
    exists (r :: rs). rewrite <- app_assoc. simpl. by rewrite Hid, Hrs.
Qed.

(** X8: [fetchMultipleDetails] never throws, whatever the fetches and the
    parser do: it returns one result per id, in the order of the ids, and
    after each id it has closed the browser and paused 500 ms before the
    next one is fetched. *)
Theorem fetchMultipleDetails_total (ids : list (list N)) w :
  exists rs,
    FetchMultiple.fetchMultipleDetails world ids w
    = (Returned rs,
       fold_left
         (fun w id =>
            sleep world 500
              (closeBrowser world
                 (snd (openAndNavigate world (DetailsUrl id) w))))
         ids w)
    /\ List.map FetchMultiple.entryId rs = ids.
Proof. apply (fetchLoop_returns ids []). Qed.

Lemma counting_openBrowser w u :
  exists page w',
    openBrowser (counting world) (w, u) = (Returned page, (w', launched u)).
Proof.
  unfold openBrowser, bind, lift, effect, ret. simpl.
  destruct (launch world w) as [[context page] w1]. simpl.
  destruct (getCookieString world w1) as [[c|] w2]; simpl;
    destruct context; simpl; eauto.
Qed.

Lemma counting_navigate (page : bool) (url : Url) w u :
  exists o w', navigate (counting world) page url (w, u) = (Returned o, (w', u)).
Proof.
  unfold navigate, lift, ret. destruct page; simpl; [|by eauto].
  destruct (goto world url w) as [o w1]. by eauto.
Qed.

Lemma counting_openAndNavigate (url : Url) w u :
  exists o w',
    openAndNavigate (counting world) url (w, u) = (Returned o, (w', launched u)).
Proof.
  unfold openAndNavigate, bind.
  destruct (counting_openBrowser w u) as (page & w1 & ->).
  apply counting_navigate.
Qed.

Lemma counting_passChallenge (blocked : Error) w u :
  exists o w',
    passChallenge (counting world) options blocked (w, u) = (o, (w', u)).
Proof.
  unfold passChallenge, bind, lift, throw, ret. simpl.
  destruct (evaluateChallenge world w) as [c w1]. simpl.
  destruct (default false c); [|by eauto].
  destruct (headless options); [by eauto|]. simpl.
  destruct (waitForNavigation world w1) as [[] w2]; simpl; eauto.
Qed.

(** One detail fetch, begun with no browser open, ends with none open or
    throws holding the one it launched. *)
Lemma counting_fetchDetail (entry : Entry) (id : list N) w :
  exists o s,
    fetchDetail (counting world) entry id (w, idle) = (o, s)
    /\ snd s = match o with Returned _ => idle | Threw _ => launched idle end.
Proof.
  pose proof (fetchDetail_cases (counting world) entry id (w, idle)) as H.
  destruct (counting_openAndNavigate (DetailsUrl id) w idle) as (o & w1 & E).
  rewrite E in H. destruct o as [d|].
  - destruct (parseDetailsPage d) as [details|e]; rewrite H; by eauto.
  - rewrite H. by eauto.
Qed.

Lemma counting_detailLoop (stubs acc : list Entry) w :
  exists o s,
    detailLoop (counting world) stubs acc (w, idle) = (o, s)
    /\ snd s = match o with Returned _ => idle | Threw _ => launched idle end.
Proof.
  revert acc w. induction stubs as [|entry stubs IH]; intros acc w; simpl.
  - by eauto.
  - destruct (entryId entry) as [id|]; [|apply IH].
    unfold bind at 1.
    destruct (counting_fetchDetail entry id w) as ([pushed|e] & [w1 u1] & -> & Hu);
      simpl in Hu; subst u1; [apply IH|by eauto].
Qed.

(** X9: whatever the world does and however the operation ends, by a
    result or by an error, [scrapeWord], [lookup] and
    [fetchMultipleDetails] leave no browser open; they never launch a
    browser while another is open, and never close one that is not
    open. *)
Theorem browsers_closed (w0 : list N) (ids : list (list N)) w :
  snd (snd (scrapeWord (counting world) options w0 (w, idle))) = idle
  /\ snd (snd (lookup (counting world) et options w0 (w, idle))) = idle
  /\ snd (snd (FetchMultiple.fetchMultipleDetails (counting world) ids (w, idle)))
     = idle.
Proof.
  split; [|split].
  - unfold scrapeWord, buildUrl. destruct (isEmpty w0); [done|].
    destruct (isWellFormed w0); [|done].
    unfold closingOnThrow, bind at 1.
    destruct (counting_openAndNavigate (SearchUrl w0) w idle) as (o & w1 & ->).
    destruct o as [doc|]; [|done].
    unfold bind at 1.
    destruct (counting_passChallenge CloudflareChallenge w1 (launched idle))
      as ([[]|e] & w2 & ->); [|done].
    unfold bind at 1, effect at 1.
    destruct (stubsOf doc) as [|stub stubs]; [done|].
    unfold bind at 1.
    change (closeBrowser (counting world) (w2, launched idle))
      with (closeBrowser world w2, idle).
    destruct (counting_detailLoop (stub :: stubs) [] (closeBrowser world w2))
      as ([r|e] & [w3 u3] & -> & Hu); simpl in Hu; by subst u3.
  - unfold lookup. destruct (isEmpty w0); [done|].
    unfold bind at 1, closingOnThrow, bind at 1.
    destruct (counting_openBrowser w idle) as (page & w1 & ->).
    unfold bind at 1, ofOutcome, buildUrl.
    destruct (isWellFormed w0); [|done].
    unfold bind at 1.
    destruct (counting_navigate page (SearchUrl w0) w1 (launched idle))
      as (o & w2 & ->).
    destruct o as [doc|]; [|done].
    unfold bind at 1.
    destruct (counting_passChallenge CloudflareBlock w2 (launched idle))
      as ([[]|e] & w3 & ->); [|done].
    unfold bind at 1.
    destruct (parseEntries et doc) as [p|e]; done.
  - unfold FetchMultiple.fetchMultipleDetails.
    generalize (@nil FetchMultiple.Result). revert w.
    induction ids as [|id ids' IH]; intros w acc; simpl; [done|].
    unfold bind at 1, FetchMultiple.fetchOne, bind at 1.
    destruct (counting_openAndNavigate (DetailsUrl id) w idle) as (o & w1 & ->).
    unfold ret at 1, bind at 1, effect at 1, bind at 1, effect at 1.
    apply IH.
Qed.

End Browsers.


(** ** The detail page *)

Section DetailMeanings.

Implicit Types (doc : Doc) (r result e : Entry) (label value : list N).

Lemma maknaOf_insert_ne (k : string) (v : Value) r :
  k <> "makna"%string -> maknaOf (<[k := v]> r) = maknaOf r.
Proof. intros Hk. unfold maknaOf, getMakna. by rewrite lookup_insert_ne. Qed.

Lemma maknaOf_insert (ms : list Meaning) r :
  maknaOf (<["makna" := VMakna ms]> r) = ms.
Proof. unfold maknaOf, getMakna. by rewrite lookup_insert_eq. Qed.

Lemma definisi_alter (f : Meaning -> Meaning) (i : nat) (ms : list Meaning) :
  (forall m, definisi (f m) = definisi m) ->
  List.map definisi (alter f i ms) = List.map definisi ms.
Proof.
  intros Hf. revert i. induction ms as [|m ms IH]; intros [|i]; simpl; try done.
  - by rewrite Hf.
  - f_equal. apply IH.
Qed.

Lemma definisi_updateLastMakna (f : Meaning -> Meaning) r :
  (forall m, definisi (f m) = definisi m) ->
  List.map definisi (maknaOf (updateLastMakna f r)) = List.map definisi (maknaOf r).
Proof.
  intros Hf. unfold updateLastMakna.
  destruct (getMakna r) as [[|m ms]|] eqn:E; try done.
  rewrite maknaOf_insert, definisi_alter by done.
  unfold maknaOf. by rewrite E.
Qed.

Ltac notMakna E :=
  apply bool_decide_eq_true in E; subst;
  match goal with
  | |- context [eqb ?a (js "Makna")] =>
      replace (eqb a (js "Makna")) with false by (by vm_compute)
  end;
  rewrite maknaOf_insert_ne by done; simpl; by rewrite app_nil_r.

(** What one row adds to the definitions. *)
Lemma applyRow_definisi label value r :
  List.map definisi (maknaOf (applyRow label value r))
  = List.map definisi (maknaOf r)
    ++ (if eqb label (js "Makna")
           && negb (isEmpty value || eqb value placeholder)
        then [value] else []).
Proof.
  unfold applyRow.
  destruct (isEmpty value || eqb value placeholder); simpl.
  { by rewrite andb_false_r, app_nil_r. }
  rewrite andb_true_r.
  destruct (eqb label (js "Eid")) eqn:E1; [notMakna E1|].
  destruct (eqb label (js "Entri")) eqn:E2; [notMakna E2|].
  destruct (eqb label (js "Id Homonim")) eqn:E3; [notMakna E3|].
  destruct (eqb label (js "Jenis Entri")) eqn:E4; [notMakna E4|].
  destruct (eqb label (js "Induk Kata")) eqn:E5; [notMakna E5|].
  destruct (eqb label (js "Makna")) eqn:E6.
  { rewrite maknaOf_insert, map_app. reflexivity. }
  rewrite app_nil_r.
  destruct (eqb label (js "Kelas Kata")); [by apply definisi_updateLastMakna|].
  destruct (eqb label (js "Contoh")); [by apply definisi_updateLastMakna|done].
Qed.

Lemma applyRows_definisi doc (rows : list Path) r :
  List.map definisi (maknaOf (applyRows doc rows r))
  = List.map definisi (maknaOf r) ++ maknaValues doc rows.
Proof.
  revert r. induction rows as [|row rows IH]; intros r.
  { simpl. by rewrite app_nil_r. }
  change (applyRows doc (row :: rows) r)
    with (applyRows doc rows (applyRow (rowLabel doc row) (rowValue doc row) r)).
  rewrite IH, applyRow_definisi, <- app_assoc. f_equal.
  unfold maknaValues. simpl.
  by destruct (eqb (rowLabel doc row) (js "Makna")
               && negb (isEmpty (rowValue doc row)
                        || eqb (rowValue doc row) placeholder)).
Qed.

Lemma applyContohHeader_definisi doc (h4 : Path) r r' :
  applyContohHeader doc h4 r = Returned r' ->
  List.map definisi (maknaOf r') = List.map definisi (maknaOf r).
Proof.
  unfold applyContohHeader.
  destruct (matchContohHeader _) as [[meaningNum exampleNum]|];
    [|by intros [= <-]].
  destruct (getMakna r) as [ms|] eqn:E; [|by intros [= <-]].
  destruct (_ <? _)%nat; [by intros [= <-]|].
  destruct meaningNum as [|k]; [discriminate|].
  destruct (negb _ && _); intros [= <-]; [|done].
  rewrite maknaOf_insert, definisi_alter by done.
  unfold maknaOf. by rewrite E.
Qed.

Lemma applyContohHeaders_definisi doc (hs : list Path) r r' :
  applyContohHeaders doc hs r = Returned r' ->
  List.map definisi (maknaOf r') = List.map definisi (maknaOf r).
Proof.
  revert r. induction hs as [|h hs IH]; intros r; simpl.
  - by intros [= <-].
  - destruct (applyContohHeader doc h r) as [r1|e] eqn:E; [|discriminate].
    simpl. intros H. rewrite (IH _ H). by eapply applyContohHeader_definisi.
Qed.

Lemma maknaOf_rootWordFallback doc r :
  maknaOf (rootWordFallback doc r) = maknaOf r.
Proof.
  unfold rootWordFallback. destruct (truthy _); [done|].
  destruct (titleRootWord doc); [|done]. by apply maknaOf_insert_ne.
Qed.

Lemma isCompoundName_insert_makna (v : Value) r :
  isCompoundName (<["makna" := v]> r) = isCompoundName r.
Proof. unfold isCompoundName. by rewrite lookup_insert_ne. Qed.

(** X10: for an entry whose name is a single word, the meanings
    [parseDetailsPage] returns are exactly the [Makna] rows of the page
    that have a value, in page order: none is lost, added or reordered by
    the later passes; so no definition is the placeholder. *)
Theorem parseDetailsPage_meanings doc e :
  parseDetailsPage doc = Returned (Some e) ->
  isCompoundName e = false ->
  List.map definisi (maknaOf e) = maknaValues doc (select doc (selClass "row"))
  /\ Forall (fun m => definisi m <> placeholder) (maknaOf e).
Proof.
  intros Hparse Hname.
  assert (Heq : List.map definisi (maknaOf e)
                = maknaValues doc (select doc (selClass "row"))).
  { revert Hparse. unfold parseDetailsPage.
    destruct (applyContohHeaders doc _ _) as [r1|err] eqn:E1; [|discriminate].
    simpl. unfold compoundFallback.
    destruct (isCompoundName (rootWordFallback doc r1)
              && maknaIncomplete (rootWordFallback doc r1)) eqn:C.
    - apply andb_true_iff in C as [C _].
      destruct (extractCompoundWordMeanings _ _) as [[|m ms]|err]; simpl;
        [| |discriminate];
        destruct (0 <? size _)%nat; intros [= <-];
        rewrite ?isCompoundName_insert_makna in Hname; congruence.
    - simpl. destruct (0 <? size _)%nat; intros [= <-].
      rewrite maknaOf_rootWordFallback.
      rewrite (applyContohHeaders_definisi _ _ _ _ E1).
      by rewrite applyRows_definisi. }
  split; [done|].
  rewrite <- Forall_map with (f := definisi) (P := fun d => d <> placeholder).
  rewrite Heq. unfold maknaValues. rewrite Forall_map.
  apply Forall_forall. intros row Hrow.
  apply list_elem_of_In, filter_In in Hrow as [_ Hrow].
  apply andb_true_iff in Hrow as [_ Hrow].
  apply negb_true_iff, orb_false_iff in Hrow as [_ Hph].
  unfold eqb in Hph. by apply bool_decide_eq_false in Hph.
Qed.

Lemma applyContohHeaders_throws doc (hs : list Path) r (err : Error) :
  applyContohHeaders doc hs r = Threw err ->
  err = TypeError
  /\ exists h4 n, In h4 hs /\ matchContohHeader (textAt doc h4) = Some (0%nat, n).
Proof.
  revert r. induction hs as [|h hs IH]; intros r; simpl; [discriminate|].
  destruct (applyContohHeader doc h r) as [r1|e1] eqn:E; simpl.
  - intros H. destruct (IH _ H) as (-> & h4 & n & Hin & Hm).
    split; [done|]. exists h4, n. by split; [right|].
  - intros [= <-]. revert E. unfold applyContohHeader.
    destruct (matchContohHeader _) as [[meaningNum exampleNum]|] eqn:Em;
      [|discriminate].
    destruct (getMakna r) as [ms|]; [|discriminate].
    destruct (_ <? _)%nat; [discriminate|].
    destruct meaningNum as [|k]; [|by destruct (negb _ && _)].
    intros [= <-]. split; [done|]. exists h, exampleNum. by split; [left|].
Qed.

Lemma extractCompoundWordMeanings_throws doc (h2 : option Path) (err : Error) :
  extractCompoundWordMeanings doc h2 = Threw err -> err = TypeError /\ h2 = None.
Proof.
  unfold extractCompoundWordMeanings.
  repeat case_match; try discriminate; by intros [= <-].
Qed.

(** X11: [parseDetailsPage] throws nothing but a [TypeError], and only on
    a page that has an example header [Contoh #0-N], or no [h2] at
    all. *)
Theorem parseDetailsPage_throws doc (err : Error) :
  parseDetailsPage doc = Threw err ->
  err = TypeError
  /\ ((exists h4 n, In h4 (contohHeaders doc)
                    /\ matchContohHeader (textAt doc h4) = Some (0%nat, n))
      \/ select doc (selTag "h2") = []).
Proof.
  unfold parseDetailsPage.
  destruct (applyContohHeaders doc _ _) as [r1|e1] eqn:E1; simpl.
  - unfold compoundFallback. destruct (_ && _); [|discriminate].
    destruct (extractCompoundWordMeanings _ _) as [[|m ms]|e2] eqn:E2; simpl;
      try discriminate.
    intros [= <-]. apply extractCompoundWordMeanings_throws in E2 as [-> Hh].
    split; [done|]. right. by destruct (select doc (selTag "h2")).
  - intros [= <-]. apply applyContohHeaders_throws in E1 as [-> H].
    split; [done|by left].
Qed.

End DetailMeanings.

Lemma parseDetailsPage_meanings_witness :
  List.map definisi (maknaOf detailEntry) = [js "suka sekali"].
Proof.
  rewrite (proj1 (parseDetailsPage_meanings detailPage detailEntry
                    ltac:(by vm_compute) ltac:(by vm_compute))).
  by vm_compute.
Defined.

Lemma parseDetailsPage_throws_witness :
  (exists h4 n,
      In h4 (contohHeaders contohZeroPage)
      /\ matchContohHeader (textAt contohZeroPage h4) = Some (0%nat, n))
  \/ select contohZeroPage (selTag "h2") = [].
Proof.
  apply (parseDetailsPage_throws contohZeroPage TypeError). by vm_compute.
Defined.


(** ** Word classes and examples of the detail page *)

Section DetailRows.

Implicit Types (k n t : list N) (exs : list Example).

(** X12: a [Kelas Kata] value of the form [code (name)] is read back as
    exactly that code and that name, whatever the name contains short of
    a line break. In particular the single pattern is tried first and
    runs to the last parenthesis, so a comma-separated list of such
    classes is read as one class. *)
Theorem kelasOfValue_round_trip k n :
  k <> [] ->
  forallb isWordChar k = true ->
  forallb (fun c => negb (isLineTerminator c)) n = true ->
  kelasOfValue (k ++ js " (" ++ n ++ js ")") = [{| kode := k; nama := n |}].
Proof.
  intros Hk Hw Hn. unfold kelasOfValue, matchKelas.
  change (js " (") with [32; 40]. change (js ")") with [41].
  change (k ++ [32; 40] ++ n ++ [41]) with (k ++ 32 :: 40 :: n ++ [41]).
  rewrite (takeWhile_app_stop isWordChar k 32 (40 :: n ++ [41])) by done.
  rewrite drop_app_length.
  change (trimStart (32 :: 40 :: n ++ [41])) with (40 :: n ++ [41]).
  destruct k as [|c k']; [done|]. cbn [isEmpty orb].
  replace (Nat.eqb (length (40 :: n ++ [41])) (length (32 :: 40 :: n ++ [41])))
    with false by (symmetry; apply Nat.eqb_neq; simpl; lia).
  change (40 =? 40) with true. cbn iota.
  rewrite rev_app_distr. cbn [rev app]. change (41 =? 41) with true.
  cbn [andb].
  assert (Hr : forallb (fun e => negb (isLineTerminator e)) (rev n) = true).
  { apply forallb_forall. intros x Hx. apply in_rev in Hx.
    by apply (proj1 (forallb_forall _ _) Hn). }
  by rewrite Hr, rev_involutive.
Qed.

Lemma kelasOfValue_round_trip_witness :
  kelasOfValue (js "n (Nomina), v (Verba)")
  = [{| kode := js "n"; nama := js "Nomina), v (Verba" |}].
Proof.
  apply (kelasOfValue_round_trip (js "n") (js "Nomina), v (Verba"));
    by vm_compute.
Defined.

Lemma replaceExample_Some (num : nat) t exs exs' :
  replaceExample num t exs = Some exs' ->
  existsb (fun e => exNomor e =? num)%nat exs = true
  /\ List.map exNomor exs' = List.map exNomor exs
  /\ In {| exNomor := num; teks := t |} exs'
  /\ (forall ex, In ex exs -> exNomor ex <> num -> In ex exs').
Proof.
  revert exs'. induction exs as [|e r IH]; intros exs'; simpl; [discriminate|].
  destruct (exNomor e =? num)%nat eqn:E.
  - intros [= <-]. apply Nat.eqb_eq in E. simpl.
    split; [done|]. split; [done|]. split; [left; by rewrite E|].
    intros ex [<-|Hin] Hne; [done|by right].
  - destruct (replaceExample num t r) as [r'|]; [|discriminate].
    intros [= <-]. destruct (IH r' eq_refl) as (H1 & H2 & H3 & H4). simpl.
    split; [done|]. split; [by rewrite H2|]. split; [by right|].
    intros ex [<-|Hin] Hne; [by left|right; by apply H4].
Qed.

Lemma replaceExample_None (num : nat) t exs :
  replaceExample num t exs = None ->
  existsb (fun e => exNomor e =? num)%nat exs = false.
Proof.
  induction exs as [|e r IH]; simpl; [done|].
  destruct (exNomor e =? num)%nat; [discriminate|].
  destruct (replaceExample num t r); [discriminate|]. auto.
Qed.

(** X13: storing an example under a number, as the [Contoh #M-N] pass
    does: afterwards the list holds the example with that number and that
    text; the numbers already there keep their order, and the number is
    appended only when it was not there; examples with other numbers are
    untouched. *)
Theorem putExample_stores (num : nat) t exs :
  In {| exNomor := num; teks := t |} (putExample num t exs)
  /\ List.map exNomor (putExample num t exs)
     = (if existsb (fun e => exNomor e =? num)%nat exs
        then List.map exNomor exs
        else List.map exNomor exs ++ [num])
  /\ (forall ex, In ex exs -> exNomor ex <> num ->
                 In ex (putExample num t exs)).
Proof.
  unfold putExample.
  destruct (replaceExample num t exs) as [exs'|] eqn:E.
  - apply replaceExample_Some in E as (-> & H2 & H3 & H4). done.
  - apply replaceExample_None in E as ->.
    split; [apply in_or_app; right; by left|].
    split; [by rewrite map_app|].
    intros ex Hin _. apply in_or_app. by left.
Qed.

End DetailRows.


(** ** [Utils.wrapText] *)

Section Wrapping.

Implicit Types (s a b w text : list N) (c : N) (width : nat).

Lemma splitOn_nonempty c s : splitOn c s <> [].
Proof.
  destruct s as [|x s]; simpl; [done|].
  destruct (x =? c); [done|]. by destruct (splitOn c s).
Qed.

Lemma splitOn_no_sep c s : Forall (fun w => ~ In c w) (splitOn c s).
Proof.
  induction s as [|x s IH]; simpl; [constructor; [by intros []|constructor]|].
  destruct (x =? c) eqn:E; [constructor; [by intros []|done]|].
  apply N.eqb_neq in E.
  destruct (splitOn c s) as [|t ts];
    [constructor; [by intros [?|[]]|constructor]|].
  inversion_clear IH as [|? ? Ht Hts]. constructor; [|done].
  intros [?|?]; [done|by apply Ht].
Qed.

Lemma splitOn_app c a b : splitOn c (a ++ c :: b) = splitOn c a ++ splitOn c b.
Proof.
  induction a as [|x a IH]; simpl.
  - by rewrite N.eqb_refl.
  - destruct (x =? c); [by rewrite IH|].
    rewrite IH. pose proof (splitOn_nonempty c a).
    by destruct (splitOn c a).
Qed.

Lemma splitOn_word c w : ~ In c w -> splitOn c w = [w].
Proof.
  induction w as [|x w IH]; simpl; [done|]. intros H.
  destruct (x =? c) eqn:E; [apply N.eqb_eq in E; tauto|].
  rewrite IH by tauto. done.
Qed.

Lemma wordsOf_app (l1 l2 : list (list N)) : wordsOf (l1 ++ l2) = wordsOf l1 ++ wordsOf l2.
Proof. unfold wordsOf. by rewrite flat_map_app, List.filter_app. Qed.

Lemma wordsOf_word w :
  ~ In 32 w -> wordsOf [w] = List.filter (fun w => negb (isEmpty w)) [w].
Proof. intros H. unfold wordsOf. simpl. by rewrite app_nil_r, splitOn_word. Qed.

Lemma wordsOf_spaced a b : wordsOf [a ++ 32 :: b] = wordsOf [a] ++ wordsOf [b].
Proof.
  unfold wordsOf. simpl. rewrite !app_nil_r.
  by rewrite (splitOn_app 32 a b), List.filter_app.
Qed.

Lemma wrapWords_fits width (words lines : list (list N)) (currentLine : list N) :
  Forall (fun w => ~ In 32 w) words ->
  Forall (fitsWidth width) lines ->
  fitsWidth width currentLine ->
  Forall (fitsWidth width) (Utils.wrapWords width words lines currentLine).
Proof.
  intros Hwords. revert lines currentLine.
  induction Hwords as [|word rest Hword _ IH]; intros lines cur Hl Hc; simpl.
  - destruct (isEmpty cur); [done|].
    apply Forall_app; split; [done|]. constructor; [done|constructor].
  - destruct (width <? length cur + length word + 1)%nat eqn:E.
    + apply IH; [|by right].
      apply Forall_app; split; [done|]. constructor; [done|constructor].
    + apply Nat.ltb_ge in E. apply IH; [done|]. left.
      destruct cur; simpl; [lia|]. simpl in E.
      rewrite length_app. simpl. lia.
Qed.

Lemma wrapWords_words width (words lines : list (list N)) (currentLine : list N) :
  Forall (fun w => ~ In 32 w) words ->
  wordsOf (Utils.wrapWords width words lines currentLine)
  = wordsOf lines ++ wordsOf [currentLine]
    ++ List.filter (fun w => negb (isEmpty w)) words.
Proof.
  intros Hwords. revert lines currentLine.
  induction Hwords as [|word rest Hword _ IH]; intros lines cur; simpl.
  - rewrite app_nil_r. destruct cur; simpl.
    + by rewrite app_nil_r.
    + by rewrite wordsOf_app.
  - assert (Hw : wordsOf [word]
                 ++ List.filter (fun w => negb (isEmpty w)) rest
                 = (if negb (isEmpty word)
                    then word :: List.filter (fun w => negb (isEmpty w)) rest
                    else List.filter (fun w => negb (isEmpty w)) rest)).
    { rewrite wordsOf_word by done. simpl. by destruct (negb (isEmpty word)). }
    rewrite <- Hw.
    destruct (width <? length cur + length word + 1)%nat.
    + rewrite IH, wordsOf_app, <- app_assoc. done.
    + rewrite IH. f_equal.
      destruct cur as [|x cur']; [done|]. cbn [isEmpty].
      by rewrite (wordsOf_spaced (x :: cur') word), <- app_assoc.
Qed.

(** X14: [wrapText] joins lines with line feeds, and each of these lines
    is at most [width] long unless it is a single word: a line is never
    made longer than the width by putting two words on it. *)
Theorem wrapText_fits text width :
  Utils.wrapText text width = Utils.join [10] (wrapLines text width)
  /\ Forall (fitsWidth width) (wrapLines text width).
Proof.
  unfold Utils.wrapText, wrapLines.
  destruct (isEmpty text); [by split|].
  destruct (length text <=? width)%nat eqn:E.
  - apply Nat.leb_le in E. split; [done|]. constructor; [by left|done].
  - split; [done|].
    apply wrapWords_fits; [apply splitOn_no_sep|done|left; simpl; lia].
Qed.

(** X15: wrapping loses and adds no word and keeps the words in order:
    the non-empty words of the lines are the non-empty words of the
    text. *)
Theorem wrapText_words text width :
  wordsOf (wrapLines text width) = wordsOf [text].
Proof.
  unfold wrapLines.
  destruct text as [|x s]; [done|]. cbn [isEmpty].
  destruct (length (x :: s) <=? width)%nat; [done|].
  rewrite wrapWords_words by apply splitOn_no_sep.
  unfold wordsOf. simpl. by rewrite app_nil_r.
Qed.

End Wrapping.


(** ** The cookie store *)

Section CookieStore.

Import Auth.

Implicit Types (c s cookieValue : list N) (fs : Fs).

Lemma existsb_eqb_In s (l : list (list N)) :
  existsb (eqb s) l = true <-> In s l.
Proof.
  rewrite existsb_exists. split.
  - intros (x & Hx & E). unfold eqb in E. apply bool_decide_eq_true in E.
    by subst.
  - intros H. exists s. split; [done|]. unfold eqb. by apply bool_decide_eq_true.
Qed.

(** X16: adding a cookie to a writable store succeeds; afterwards the
    store holds the value (the bare value, when a full cookie string was
    given), every cookie saved before is still there in its place, a
    store without duplicates stays without duplicates, and adding the
    same cookie again changes nothing. *)
Theorem addCookie_stores cookieValue fs :
  cookieValue <> [] ->
  writable fs = true ->
  fst (addCookie cookieValue fs) = Done true
  /\ In (valueToStore cookieValue)
       (readCookies (file (snd (addCookie cookieValue fs))))
  /\ (exists added,
        readCookies (file (snd (addCookie cookieValue fs)))
        = readCookies (file fs) ++ added)
  /\ (NoDup (readCookies (file fs)) ->
      NoDup (readCookies (file (snd (addCookie cookieValue fs)))))
  /\ snd (addCookie cookieValue (snd (addCookie cookieValue fs)))
     = snd (addCookie cookieValue fs).
Proof.
  intros Hne Hw. unfold addCookie.
  destruct cookieValue as [|x cv]; [done|]. cbn [isEmpty].
  set (v := valueToStore (x :: cv)). rewrite Hw. cbn [fst snd write file writable].
  rewrite Hw. cbn [readCookies snd write].
  destruct (existsb (eqb v) (readCookies (file fs))) eqn:E.
  - rewrite E. split; [done|]. split; [by apply existsb_eqb_In|].
    split; [exists []; by rewrite app_nil_r|]. done.
  - assert (Hin : existsb (eqb v) (readCookies (file fs) ++ [v]) = true).
    { apply existsb_eqb_In, in_or_app. right. by left. }
    rewrite Hin. split; [done|].
    split; [apply in_or_app; right; by left|].
    split; [by eexists|]. split; [|done].
    intros Hnd. apply NoDup_app. split; [done|].
    split; [|apply NoDup_singleton].
    intros y Hy ->%list_elem_of_singleton.
    apply list_elem_of_In, existsb_eqb_In in Hy. congruence.
Qed.

Lemma filter_length_lt {A : Type} (p : A -> bool) (l : list A) (x : A) :
  In x l -> p x = false -> (length (List.filter p l) < length l)%nat.
Proof.
  induction l as [|y l IH]; simpl; [done|].
  pose proof (List.filter_length_le p l).
  intros [->|Hin] Hp.
  - rewrite Hp. lia.
  - specialize (IH Hin Hp). destruct (p y); simpl; lia.
Qed.

(** X17: removing a cookie from a writable store that exists: afterwards
    the value is not in the store; what stays are cookies that were
    there, in their order; the call reports [true] exactly when the store
    became shorter; and when the value was in the store, only its exact
    copies are removed (the match by the first ten characters is tried
    only when no exact copy was found). *)
Theorem removeCookie_removes cookieValue fs :
  cookieValue <> [] ->
  writable fs = true ->
  file fs <> Missing ->
  let after := readCookies (file (snd (removeCookie cookieValue fs))) in
  ~ In cookieValue after
  /\ (forall c, In c after -> In c (readCookies (file fs)))
  /\ (fst (removeCookie cookieValue fs) = Done true
      <-> (length after < length (readCookies (file fs)))%nat)
  /\ (In cookieValue (readCookies (file fs)) ->
      after = List.filter (fun c => negb (eqb c cookieValue))
                (readCookies (file fs))).
Proof.
  intros Hne Hw Hfile. unfold removeCookie.
  destruct cookieValue as [|x cv]; [done|]. cbn [isEmpty].
  set (v := x :: cv). set (initial := readCookies (file fs)).
  set (exact := List.filter (fun c => negb (eqb c v)) initial).
  assert (Hexact : ~ In v exact).
  { intros [_ H]%filter_In. unfold eqb in H.
    by rewrite bool_decide_eq_true_2 in H. }
  destruct (file fs) eqn:Ef; [done| |]; rewrite Hw;
    cbn [fst snd write file readCookies];
    (destruct ((length initial =? length exact)%nat && (10 <? length v)%nat)
       eqn:E;
     [ apply andb_true_iff in E as [E _]; apply Nat.eqb_eq in E
     | ]).
  all: repeat split.
  all: try (intros H; injection H as H; by apply Nat.ltb_lt).
  all: try (intros H; f_equal; by apply Nat.ltb_lt).
  all: try (intros [H _]%filter_In; by apply Hexact).
  all: try exact Hexact.
  all: try (intros c Hc; repeat apply filter_In in Hc as [Hc _]; exact Hc).
  all: try done.
  all: intros Hin; exfalso;
    pose proof (filter_length_lt (fun c => negb (eqb c v)) initial v Hin) as Hlt;
    fold exact in Hlt; unfold eqb in Hlt;
    rewrite bool_decide_eq_true_2 in Hlt by done;
    specialize (Hlt eq_refl); lia.
Qed.

(** X18: the cookie string handed to the browser is the application
    cookie's name, an equals sign and one of the saved cookies, which is
    not empty; and with a random fraction below one a non-empty store
    always yields a cookie. *)
Theorem getCookieString_picks (random : nat * nat) fs :
  (forall s, getCookieString random fs = Some s ->
     exists c, In c (readCookies (file fs)) /\ c <> []
               /\ s = cookiePrefix ++ c)
  /\ ((fst random < snd random)%nat -> readCookies (file fs) <> [] ->
      is_Some (getRandomCookie random fs)).
Proof.
  unfold getCookieString, getRandomCookie, listCookies. cbn [cookies].
  split.
  - intros s. destruct (readCookies (file fs)) as [|c0 cs] eqn:E; [done|].
    destruct ((c0 :: cs) !! _) as [c|] eqn:El; [|done].
    destruct c as [|y c']; [done|]. cbn [isEmpty]. intros [= <-].
    exists (y :: c'). split; [|done].
    apply list_elem_of_In. by eapply list_elem_of_lookup_2.
  - intros Hlt Hne. destruct (readCookies (file fs)) as [|c0 cs]; [done|].
    apply lookup_lt_is_Some.
    apply Nat.Div0.div_lt_upper_bound.
    apply Nat.mul_lt_mono_pos_r; [simpl; lia|done].
Qed.

Lemma startsWith_app (p s : list N) : startsWith p (p ++ s) = true.
Proof.
  induction p as [|a p IH]; [done|].
  cbn [startsWith app]. by rewrite N.eqb_refl.
Qed.

Lemma takeWhile_id (p : N -> bool) s : forallb p s = true -> takeWhile p s = s.
Proof.
  induction s as [|x s IH]; simpl; [done|].
  intros [-> H]%andb_true_iff. by rewrite IH.
Qed.

Lemma includes_app_r (p a b : list N) :
  includes p b = true -> includes p (a ++ b) = true.
Proof.
  intros H. induction a as [|x a IH]; simpl; [done|].
  by rewrite IH, orb_true_r.
Qed.

Lemma splitOn_head (sep : N) s :
  exists ts, splitOn sep s = takeWhile (fun x => negb (x =? sep)) s :: ts.
Proof.
  induction s as [|x s [ts IH]]; simpl; [by eexists|].
  destruct (x =? sep); simpl; [by eexists|]. rewrite IH. by eexists.
Qed.

Lemma splitOn_prepend (sep : N) (p s t : list N) (ts : list (list N)) :
  ~ In sep p -> splitOn sep s = t :: ts ->
  splitOn sep (p ++ s) = (p ++ t) :: ts.
Proof.
  intros Hp Hs. induction p as [|x p IH]; simpl; [done|].
  destruct (x =? sep) eqn:E; [apply N.eqb_eq in E; subst; simpl in Hp; tauto|].
  rewrite IH; [done|]. simpl in Hp. tauto.
Qed.

(** X19: the cookie string the store hands out, given back to
    [addCookie], is read as the bare cookie again: the name and the
    equals sign are stripped, for any non-empty cookie without a
    semicolon. *)
Theorem cookie_string_round_trip c :
  c <> [] ->
  forallb (fun x => negb (x =? 59)) c = true ->
  valueToStore (cookiePrefix ++ c) = c.
Proof.
  intros Hne Hc. unfold valueToStore, applicationCookieValue, valueAt.
  assert (Hinc : includes [61] (cookiePrefix ++ c) = true).
  { unfold cookiePrefix. rewrite <- app_assoc.
    apply includes_app_r. done. }
  rewrite Hinc, startsWith_app, drop_app_length, takeWhile_id by done.
  by destruct c.
Qed.

(** X20: the cookie string the store hands out always parses to at least
    one browser cookie, so the browser is given the cookie whenever the
    store yields one; the first cookie is the application cookie for the
    dictionary's domain, and its value is the saved cookie cut at its
    first equals sign or semicolon. *)
Theorem parseCookieString_of_cookie_string c :
  exists rest,
    BrowserManager._parseCookieString (cookiePrefix ++ c)
    = {| BrowserManager.name := cookieName;
         BrowserManager.value :=
           trim (takeWhile (fun x => negb (x =? 61))
                   (takeWhile (fun x => negb (x =? 59)) c));
         BrowserManager.domain := js "kbbi.kemdikbud.go.id";
         BrowserManager.path := js "/" |} :: rest.
Proof.
  unfold BrowserManager._parseCookieString.
  destruct (splitOn_head 59 c) as [ts Hts].
  rewrite (splitOn_prepend 59 cookiePrefix c _ ts) by
    first [exact Hts | vm_compute; intuition discriminate].
  set (t := takeWhile (fun x => negb (x =? 59)) c).
  cbn [flat_map].
  assert (Hinc : includes [61] (cookiePrefix ++ t) = true).
  { unfold cookiePrefix. rewrite <- app_assoc.
    apply includes_app_r. done. }
  rewrite Hinc.
  destruct (splitOn_head 61 t) as [ts' Hts'].
  unfold cookiePrefix. rewrite <- app_assoc.
  change ([61] ++ t) with (61 :: t).
  rewrite splitOn_app, Hts'.
  rewrite (splitOn_word 61 cookieName) by (vm_compute; intuition discriminate).
  cbn [app]. eexists. f_equal.
Qed.

End CookieStore.

Lemma cookie_string_round_trip_witness :
  Auth.valueToStore (Auth.cookiePrefix ++ js "CfDJ8-abc") = js "CfDJ8-abc".
Proof. apply cookie_string_round_trip; by vm_compute. Defined.

Lemma addCookie_stores_witness :
  In (Auth.valueToStore (js "CCCC"))
    (Auth.readCookies (Auth.file (snd (Auth.addCookie (js "CCCC") twoCookies)))).
Proof.
  apply (addCookie_stores (js "CCCC") twoCookies); [done|reflexivity].
Defined.

Lemma removeCookie_removes_witness :
  ~ In (js "AAAAAAAAAAAA-other")
      (Auth.readCookies
         (Auth.file (snd (Auth.removeCookie (js "AAAAAAAAAAAA-other") twoCookies))))
  /\ Auth.readCookies
       (Auth.file (snd (Auth.removeCookie (js "AAAAAAAAAAAA-other") twoCookies)))
     = [js "BBBB"].
Proof.
  split; [|by vm_compute].
  apply (removeCookie_removes (js "AAAAAAAAAAAA-other") twoCookies);
    by vm_compute.
Defined.

Lemma getCookieString_picks_witness :
  is_Some (Auth.getRandomCookie (1, 2)%nat twoCookies).
Proof.
  apply (proj2 (getCookieString_picks (1, 2)%nat twoCookies)); [simpl; lia|done].
Defined.


(** ** Meanings of the compound-word path *)

Section CompoundMeanings.

Implicit Types (doc : Doc) (li : Path) (m : Meaning) (e : Entry).

Lemma compoundItemMeaning_clean doc (i : nat) li m :
  In m (compoundItemMeaning doc i li) ->
  definisi m <> [] /\ trimmed (definisi m).
Proof.
  intros Hin. split; [by eapply compoundItemMeaning_definisi|].
  revert Hin. unfold compoundItemMeaning.
  destruct (includes _ _); [done|].
  destruct (indexOfChar 58 _) as [colonIndex|].
  - destruct (isEmpty (trim (take colonIndex _))); [done|].
    intros [<-|[]]. apply trim_trimmed.
  - destruct (isEmpty (trim _)); [done|].
    intros [<-|[]]. apply trim_trimmed.
Qed.

Lemma pushParagraph_clean (meanings : list Meaning) (t : list N) :
  Forall (fun m => definisi m <> [] /\ trimmed (definisi m)) meanings ->
  isEmpty (trim t) = false ->
  Forall (fun m => definisi m <> [] /\ trimmed (definisi m))
    (pushParagraph meanings (trim t)).
Proof.
  intros Hm Ht. unfold pushParagraph. apply Forall_app. split; [done|].
  constructor; [|constructor]. simpl.
  split; [by apply isEmpty_false|apply trim_trimmed].
Qed.

Lemma textNodeMeanings_clean (nodes : list Node) (meanings : list Meaning) :
  Forall (fun m => definisi m <> [] /\ trimmed (definisi m)) meanings ->
  Forall (fun m => definisi m <> [] /\ trimmed (definisi m))
    (textNodeMeanings nodes meanings).
Proof.
  revert meanings. induction nodes as [|node nodes IH]; intros meanings Hm;
    simpl; [done|].
  destruct node as [v|v|tg attrs kids].
  - destruct (isEmpty (trim v)) eqn:E; simpl; [by apply IH|].
    destruct (5 <? length (trim v))%nat; [|by apply IH].
    apply IH. by apply pushParagraph_clean.
  - by apply IH.
  - destruct (eqb tg (js "h2")); [done|by apply IH].
Qed.

Lemma extractCompoundWordMeanings_clean doc (h2 : option Path)
    (meanings : list Meaning) :
  extractCompoundWordMeanings doc h2 = Returned meanings ->
  Forall (fun m => definisi m <> [] /\ trimmed (definisi m)) meanings.
Proof.
  unfold extractCompoundWordMeanings.
  match goal with
  | |- match ?fromList with [] => _ | _ :: _ => _ end = _ -> _ =>
      assert (Hlist : Forall (fun m => definisi m <> [] /\ trimmed (definisi m))
                        fromList);
      [|destruct fromList as [|m0 ms0]; [clear Hlist|by intros [= <-]]]
  end.
  { case_match; [|done]. apply Forall_forall. intros m Hm.
    apply list_elem_of_In, in_flat_map in Hm as ([i li] & _ & Hm).
    by eapply compoundItemMeaning_clean. }
  match goal with
  | |- match ?fromParagraphs with [] => _ | _ :: _ => _ end = _ -> _ =>
      assert (Hpar : Forall (fun m => definisi m <> [] /\ trimmed (definisi m))
                       fromParagraphs);
      [|destruct fromParagraphs as [|m0 ms0]; [clear Hpar|by intros [= <-]]]
  end.
  { apply fold_left_invariant; [done|]. intros meanings0 el Hm.
    destruct (bool_decide _); [|done].
    destruct (isEmpty (trim (textAt doc el))) eqn:E; simpl; [done|].
    destruct (_ && _); [|done]. by apply pushParagraph_clean. }
  destruct h2 as [h|]; [|discriminate].
  destruct (last h); intros [= <-]; [|done].
  by apply textNodeMeanings_clean.
Qed.

(** X21: every meaning of an entry [parseDetailsPage] returns has a
    definition that is non-empty and has no white space at either end,
    whether the meanings come from the [Makna] rows or, for a compound
    name, from the compound-word path. *)
Theorem parseDetailsPage_definisi doc e :
  parseDetailsPage doc = Returned (Some e) ->
  Forall (fun m => definisi m <> [] /\ trimmed (definisi m)) (maknaOf e).
Proof.
  unfold parseDetailsPage.
  destruct (applyContohHeaders doc _ _) as [r1|err] eqn:E1; [|discriminate].
  simpl.
  assert (Hrows : Forall (fun m => definisi m <> [] /\ trimmed (definisi m))
                    (maknaOf (rootWordFallback doc r1))).
  { rewrite <- Forall_map with (f := definisi)
      (P := fun d => d <> [] /\ trimmed d).
    rewrite maknaOf_rootWordFallback,
      (applyContohHeaders_definisi _ _ _ _ E1), applyRows_definisi.
    unfold maknaOf at 1. rewrite getMakna_empty. cbn [default List.map app].
    unfold maknaValues. rewrite Forall_map.
    apply Forall_forall. intros row Hrow.
    apply list_elem_of_In, filter_In in Hrow as [_ Hrow].
    apply andb_true_iff in Hrow as [_ Hrow].
    apply negb_true_iff, orb_false_iff in Hrow as [Hne _].
    split; [by apply isEmpty_false|apply trim_trimmed]. }
  unfold compoundFallback.
  destruct (_ && _).
  - destruct (extractCompoundWordMeanings _ _) as [[|m ms]|err] eqn:E2; simpl;
      [| |discriminate]; destruct (0 <? size _)%nat; intros [= <-]; [done|].
    rewrite maknaOf_insert. by apply extractCompoundWordMeanings_clean in E2.
  - simpl. destruct (0 <? size _)%nat; by intros [= <-].
Qed.

End CompoundMeanings.

Lemma parseDetailsPage_definisi_witness :
  Forall (fun m => definisi m <> [] /\ trimmed (definisi m)) (maknaOf detailEntry).
Proof. apply (parseDetailsPage_definisi detailPage). by vm_compute. Defined.


(** ** Failures of the two entry points *)

Section Failures.

Context {W : Type}.
Variable world : World W.
Variable options : Options.
Variable et : Doc -> option Etymology.

Implicit Types (w : W) (err : Error).










End Failures.


(** ** Root words and their homonym numbers *)

Section RootWords.

Implicit Types (name : list N) (d : N).

Lemma superscriptOf_marks d :
  isDigit d = true -> d <> 48 ->
  isWordChar (superscriptOf d) = false /\ isSupRange (superscriptOf d) = true.
Proof.
  unfold isDigit. rewrite andb_true_iff, !N.leb_le. intros [H1 H2] H0.
  assert (H : d = 49 \/ d = 50 \/ d = 51 \/ d = 52 \/ d = 53
              \/ d = 54 \/ d = 55 \/ d = 56 \/ d = 57) by lia.
  repeat (destruct H as [->|H]; [done|]). by subst.
Qed.

(** X23: the repair [extractRootWord] applies to a root word link: when
    the link text is a word followed by its homonym digit (1 to 9) and
    the superscript form of that digit has been appended, the stray digit
    is removed and the word with its superscript remains. *)
Theorem fixStrayDigit_homonym name d :
  name <> [] ->
  forallb isWordChar name = true ->
  isDigit d = true -> d <> 48 ->
  fixStrayDigit ((name ++ [d]) ++ toSuperscript [d]) = name ++ toSuperscript [d].
Proof.
  intros Hne Hw Hd H0.
  destruct (superscriptOf_marks d Hd H0) as [Hnw Hsup].
  assert (Hdw : isWordChar d = true).
  { unfold isWordChar. by rewrite Hd. }
  assert (Hrun : takeWhile isWordChar ((name ++ [d]) ++ toSuperscript [d])
                 = name ++ [d]).
  { apply takeWhile_app_stop; [|done].
    rewrite forallb_app, Hw. simpl. by rewrite Hdw. }
  destruct name as [|c n]; [done|].
  change (fixStrayDigit (((c :: n) ++ [d]) ++ toSuperscript [d]))
    with (let run := takeWhile isWordChar (((c :: n) ++ [d]) ++ toSuperscript [d]) in
          let rest := drop (length run) (((c :: n) ++ [d]) ++ toSuperscript [d]) in
          if (2 <=? length run)%nat && headIs isDigit (rev run)
             && headIs isSupRange rest
          then removelast run ++ rest
          else c :: fixStrayDigit ((n ++ [d]) ++ toSuperscript [d])).
  cbv zeta. rewrite Hrun, drop_app_length, rev_app_distr, removelast_last.
  replace (2 <=? length ((c :: n) ++ [d]))%nat with true
    by (symmetry; apply Nat.leb_le; rewrite length_app; simpl; lia).
  cbn [rev app headIs toSuperscript List.map andb].
  by rewrite Hd, Hsup.
Qed.

Lemma fixStrayDigit_homonym_witness :
  fixStrayDigit ((js "kaki" ++ js "1") ++ toSuperscript (js "1"))
  = js "kaki" ++ toSuperscript (js "1").
Proof. apply (fixStrayDigit_homonym (js "kaki") 49); by vm_compute. Defined.

End RootWords.

(** ** The addresses [scrapeWord] visits *)

Section Visits.

Context {W : Type}.
Variable world : World W.
Variable options : Options.

Implicit Types (w : W) (log : list Url).







End Visits.

